(** * hegiahe gallery: record store, Locket sync and read paths

    A shallow embedding of the TypeScript sources of the gallery
    (lib/db.ts, lib/images.ts, pages/api/images, pages/api/admin/images,
    pages/api/locket/{moments,sync,reset}, and the listing, paging and
    navigation logic of pages/index.tsx and components/ImageModal.tsx),
    the properties of its specification that can be stated over it, and
    further properties of the code: lookups after writes, numbering,
    what sync and reset leave, the shape of slugs and listings, and the
    reader on the files the writers leave.

    Conventions of the embedding:
    - a JavaScript [number] is a [Z] (the store only ever holds counters,
      pixel sizes and epoch seconds); [NaN] is [None] where the code can
      produce it;
    - a [string] is a [string] of bytes; [toLowerCase] acts on A-Z;
    - an optional or nullable field is an [option];
    - [Date], [fetch] and the file system are taken from the host: the
      clock is an argument, read once per call ([now]), the parsed
      database file is a [DbFile];
    - an exception is a [Thrown] outcome, [try]/[catch] is [catch]. *)

From Stdlib Require Import ZArith List String Ascii Bool Lia.
From stdpp Require Import base option list strings gmap sorting pretty.

Set Warnings "-register-all,-clear-no-such-hyp".
Local Open Scope Z_scope.

(** ** JavaScript values and control flow *)
Module Js.

(** What [JSON.parse] returns, plus [undefined] for absent properties. *)
Inductive value : Type :=
| VUndefined
| VNull
| VBool (b : bool)
| VNum (n : Z)
| VStr (s : string)
| VArr (items : list value)
| VObj (fields : gmap string value).

(** [ToBoolean] on the types of the model. *)
Class Truthy (A : Type) := truthy : A → bool.
Global Hint Mode Truthy ! : typeclass_instances.

Global Instance truthy_string : Truthy string :=
  fun s => negb (String.eqb s "").
Global Instance truthy_Z : Truthy Z := fun n => negb (n =? 0).
Global Instance truthy_bool : Truthy bool := fun b => b.
Global Instance truthy_option `{Truthy A} : Truthy (option A) :=
  fun o => match o with Some a => truthy a | None => false end.
Global Instance truthy_value : Truthy value :=
  fun v =>
    match v with
    | VUndefined | VNull => false
    | VBool b => b
    | VNum n => truthy n
    | VStr s => truthy s
    | VArr _ | VObj _ => true
    end.

(** [a || b] on operands of one type. *)
Definition or {A} `{Truthy A} (a b : A) : A := if truthy a then a else b.
(** [o || d] where [o] may be null or undefined and [d] is not. *)
Definition orDefault {A} `{Truthy A} (o : option A) (d : A) : A :=
  match o with Some a => or a d | None => d end.
(** [o || undefined]. *)
Definition orUndefined {A} `{Truthy A} (o : option A) : option A :=
  if truthy o then o else None.

(** Thrown values: the built-in errors the model can raise, and
    [new Error(message)]. *)
Inductive error :=
| TypeError
| SyntaxError
| RangeError
| Error (message : string).

(** [error?.message] *)
Definition messageOf (e : error) : string :=
  match e with
  | TypeError => "Cannot read properties of undefined"
  | SyntaxError => "Unexpected token in JSON"
  | RangeError => "Invalid time value"
  | Error message => message
  end.

Inductive outcome (A : Type) : Type :=
| Returned (a : A)
| Thrown (e : error).
Global Arguments Returned {A} a.
Global Arguments Thrown {A} e.

Global Instance outcome_ret : MRet outcome := fun A a => Returned a.
Global Instance outcome_bind : MBind outcome :=
  fun A B k m => match m with Returned a => k a | Thrown e => Thrown e end.

(** [try { m } catch { h }] *)
Definition catch {A} (m : outcome A) (h : error → A) : A :=
  match m with Returned a => a | Thrown e => h e end.

(** [Array.prototype.map] with a callback that may throw. *)
Fixpoint mapM {A B} (f : A → outcome B) (l : list A) : outcome (list B) :=
  match l with
  | [] => Returned []
  | x :: l' =>
      y ← f x; ys ← mapM f l'; mret (y :: ys)
  end.

(** Property read [v.k] for a name [k] that no prototype defines: a
    [TypeError] on null and undefined, [undefined] on other values
    without the field. *)
Definition get (v : value) (k : string) : outcome value :=
  match v with
  | VUndefined | VNull => Thrown TypeError
  | VObj fields => Returned (default VUndefined (fields !! k))
  | _ => Returned VUndefined
  end.

(** [Array.prototype.sort(cmp)]: stable; [x] stays before [y] unless
    [cmp x y > 0]; a [NaN] result ([None]) counts as [+0]. *)
Definition keepsBefore {A} (cmp : A → A → option Z) (x y : A) : bool :=
  match cmp x y with Some d => d <=? 0 | None => true end.

Fixpoint sortInsert {A} (cmp : A → A → option Z) (x : A) (l : list A)
  : list A :=
  match l with
  | [] => [x]
  | y :: l' =>
      if keepsBefore cmp x y then x :: y :: l' else y :: sortInsert cmp x l'
  end.

Definition sort {A} (cmp : A → A → option Z) (l : list A) : list A :=
  foldr (sortInsert cmp) [] l.

(** [String(v)] *)
Fixpoint toString (v : value) : string :=
  match v with
  | VUndefined => "undefined"
  | VNull => "null"
  | VBool true => "true"
  | VBool false => "false"
  | VNum n => pretty n
  | VStr s => s
  | VArr items =>
      let item v :=
        match v with VUndefined | VNull => "" | _ => toString v end in
      (fix join (l : list value) : string :=
         match l with
         | [] => ""
         | [x] => item x
         | x :: l' => item x +:+ "," +:+ join l'
         end) items
  | VObj _ => "[object Object]"
  end.

(** [String.prototype.toLowerCase], on the letters A-Z. *)
Definition lowerAscii (c : ascii) : ascii :=
  let n := nat_of_ascii c in
  if ((65 <=? n) && (n <=? 90))%nat then ascii_of_nat (n + 32) else c.

Definition toLowerCase (s : string) : string :=
  string_of_list_ascii (List.map lowerAscii (list_ascii_of_string s)).

(** [hay.includes(needle)] *)
Definition includes (hay needle : string) : bool :=
  bool_decide (is_Some (String.index 0 needle hay)).

End Js.

Import Js.

(** ** lib/db.ts: the JSON-file record store *)
Module Db.

(** The gallery record: the fields of [ImageData] in lib/db.ts, and the
    ones the Locket handlers add to the records they write. *)
Record ImageData : Type := mkImageData {
  id : Z;
  slug : string;
  title : string;
  description : option string;
  image_url : string;
  thumbnail_url : option string;
  video_url : option string;
  width : Z;
  height : Z;
  file_size : option Z;
  order_index : Z;
  created_at : string;
  updated_at : string;
  source : option string;
  locket_user_id : option string;
  caption : option string;
  overlays : option value;
}.

Record Database : Type := mkDatabase {
  images : list ImageData;
  nextId : Z;
}.

(** database/images.json as the readers find it. *)
Inductive DbFile : Type :=
| NoFile                               (* the file does not exist *)
| Garbled                              (* [JSON.parse] throws *)
| LegacyArray (l : list ImageData)     (* a bare array of records *)
| Stored (db : Database).              (* { images, nextId } *)

(** A store operation reads the file, may throw, and leaves a file. *)
Definition Fs (A : Type) : Type := DbFile → outcome (A * DbFile).

Definition ret {A} (a : A) : Fs A := fun file => Returned (a, file).
Definition bind {A B} (m : Fs A) (k : A → Fs B) : Fs B :=
  fun file =>
    match m file with
    | Returned (a, file') => k a file'
    | Thrown e => Thrown e
    end.

Definition initialData : Database := {| images := []; nextId := 1 |}.

(** [initDB]: creates the file when it is missing; otherwise parses it.
    The result is used as a [Database]: on a bare array [db.images] is
    undefined and every caller's first use of it throws, before any
    write. *)
Definition initDB : Fs Database :=
  fun file =>
    match file with
    | NoFile => Returned (initialData, Stored initialData)
    | Garbled => Thrown SyntaxError
    | LegacyArray _ => Thrown TypeError
    | Stored db => Returned (db, file)
    end.

Definition saveDB (db : Database) : Fs unit :=
  fun _ => Returned ((), Stored db).

(** [(a, b) => b.order_index - a.order_index || b.id - a.id] *)
Definition byOrderThenId (a b : ImageData) : option Z :=
  Some (or (order_index b - order_index a) (id b - id a)).

Definition getAllImages : Fs (list ImageData) :=
  bind initDB (fun db => ret (Js.sort byOrderThenId (images db))).

(** [Array.prototype.find(...) || null] *)
Definition getImageBySlug (s : string) : Fs (option ImageData) :=
  bind initDB (fun db =>
    ret (List.find (fun img => String.eqb (slug img) s) (images db))).

Definition getImageById (i : Z) : Fs (option ImageData) :=
  bind initDB (fun db =>
    ret (List.find (fun img => id img =? i) (images db))).

(** [{ ...data, id: db.nextId++, created_at: now, updated_at: now }];
    whatever [data] holds under the three overridden keys is lost. *)
Definition createImage (now : string) (data : ImageData) : Fs ImageData :=
  bind initDB (fun db =>
    let newImage :=
      {| id := nextId db; slug := slug data; title := title data;
         description := description data; image_url := image_url data;
         thumbnail_url := thumbnail_url data; video_url := video_url data;
         width := width data; height := height data;
         file_size := file_size data; order_index := order_index data;
         created_at := now; updated_at := now;
         source := source data; locket_user_id := locket_user_id data;
         caption := caption data; overlays := overlays data |} in
    bind (saveDB {| images := images db ++ [newImage];
                    nextId := nextId db + 1 |})
         (fun _ => ret newImage)).

(** [Partial<ImageData>]: [None] is a key the payload does not have.
    For an optional field, [Some None] is the key set to undefined. *)
Module Partial.
Record t : Type := mk {
  id : option Z;
  slug : option string;
  title : option string;
  description : option (option string);
  image_url : option string;
  thumbnail_url : option (option string);
  video_url : option (option string);
  width : option Z;
  height : option Z;
  file_size : option (option Z);
  order_index : option Z;
  created_at : option string;
  updated_at : option string;
  source : option (option string);
  locket_user_id : option (option string);
  caption : option (option string);
  overlays : option (option value);
}.
Definition empty : t :=
  mk None None None None None None None None None None None None None
     None None None None.
End Partial.

(** [{ ...img, ...data }] *)
Definition spread (img : ImageData) (data : Partial.t) : ImageData :=
  {| id := default (id img) (Partial.id data);
     slug := default (slug img) (Partial.slug data);
     title := default (title img) (Partial.title data);
     description := default (description img) (Partial.description data);
     image_url := default (image_url img) (Partial.image_url data);
     thumbnail_url :=
       default (thumbnail_url img) (Partial.thumbnail_url data);
     video_url := default (video_url img) (Partial.video_url data);
     width := default (width img) (Partial.width data);
     height := default (height img) (Partial.height data);
     file_size := default (file_size img) (Partial.file_size data);
     order_index := default (order_index img) (Partial.order_index data);
     created_at := default (created_at img) (Partial.created_at data);
     updated_at := default (updated_at img) (Partial.updated_at data);
     source := default (source img) (Partial.source data);
     locket_user_id :=
       default (locket_user_id img) (Partial.locket_user_id data);
     caption := default (caption img) (Partial.caption data);
     overlays := default (overlays img) (Partial.overlays data) |}.

Definition withIdAndStamp (i : Z) (now : string) (img : ImageData)
  : ImageData :=
  {| id := i; slug := slug img; title := title img;
     description := description img; image_url := image_url img;
     thumbnail_url := thumbnail_url img; video_url := video_url img;
     width := width img; height := height img;
     file_size := file_size img; order_index := order_index img;
     created_at := created_at img; updated_at := now;
     source := source img; locket_user_id := locket_user_id img;
     caption := caption img; overlays := overlays img |}.

(** [findIndex(img => img.id === id)], with the element found there;
    [None] is the source's -1. *)
Definition findIndex (i : Z) (l : list ImageData)
  : option (nat * ImageData) :=
  list_find (fun img => id img = i) l.

(** [{ ...db.images[index], ...data, id, updated_at: now }] stored at
    [index]. *)
Definition updateImage (now : string) (i : Z) (data : Partial.t)
  : Fs (option ImageData) :=
  bind initDB (fun db =>
    match findIndex i (images db) with
    | None => ret None
    | Some (index, old) =>
        let updated := withIdAndStamp i now (spread old data) in
        bind (saveDB {| images := <[index := updated]> (images db);
                        nextId := nextId db |})
             (fun _ => ret (Some updated))
    end).

(** [splice(index, 1)] *)
Definition deleteImage (i : Z) : Fs bool :=
  bind initDB (fun db =>
    match findIndex i (images db) with
    | None => ret false
    | Some (index, _) =>
        bind (saveDB {| images := delete index (images db);
                        nextId := nextId db |})
             (fun _ => ret true)
    end).

End Db.

(** ** The host's [Date] *)
Record Host : Type := mkHost {
  (** [new Date(ms).toISOString()]; throws [RangeError] on an invalid
      date. *)
  toISOString : Z → outcome string;
  (** [new Date(ms).toLocaleDateString('vi-VN')] *)
  toLocaleDateString : Z → string;
  (** [new Date(v).getTime()]; [None] is [NaN]. *)
  getTime : value → option Z;
}.

(** ** pages/api/locket/moments.ts: the moments endpoint *)
Module Moments.

Record LocketMoment : Type := mkMoment {
  id : string;
  user : string;
  imageUrl : string;
  thumbnailUrl : string;
  videoUrl : option string;
  caption : option string;
  overlays : option value;
  createTime : option Z;       (* [None]: NaN, null once through JSON *)
  date : string;
}.

(** An entry of the external service's reply, with the fields the
    reshaping reads. *)
Module Raw.
Inductive CreatedAt : Type :=
| Seconds (n : Z)                       (* a number *)
| Timestamp (_seconds : option Z)       (* a Firestore timestamp *)
| Text (s : string).                    (* an ISO string *)

Global Instance truthy_CreatedAt : Truthy CreatedAt :=
  fun c =>
    match c with
    | Seconds n => truthy n
    | Timestamp _ => true
    | Text s => truthy s
    end.

Record t : Type := mk {
  canonical_uid : option string;
  id : option string;
  moment_uid : option string;
  thumbnail_url : option string;
  thumbnailUrl : option string;
  image_url : option string;
  photo_url : option string;
  imageUrl : option string;
  photoUrl : option string;
  video_url : option string;
  videoUrl : option string;
  caption : option string;
  overlays : option value;
  created_at : option CreatedAt;
  createTime : option Z;
  date : option string;
  user : option string;
  sender_uid : option string;
}.
End Raw.

(** The creation time in epoch seconds, from whichever field has it. *)
Definition parseCreateTime (h : Host) (m : Raw.t) : option Z :=
  if truthy (Raw.created_at m) then
    match Raw.created_at m with
    | Some (Raw.Seconds n) => Some n
    | Some (Raw.Timestamp (Some s)) => if truthy s then Some s else Some 0
    | Some (Raw.Text s) => (fun ms => ms `div` 1000) <$> getTime h (VStr s)
    | _ => Some 0
    end
  else if truthy (Raw.createTime m) then
    Some (default 0 (Raw.createTime m))
  else if truthy (Raw.date m) then
    (fun ms => ms `div` 1000) <$> getTime h (VStr (default "" (Raw.date m)))
  else Some 0.

(** The callback of [momentEntries.map]: [None] is the source's null. *)
Definition reshape (h : Host) (_localId : string) (m : Raw.t)
  : outcome (option LocketMoment) :=
  let id := orDefault (or (or (Raw.canonical_uid m) (Raw.id m))
                          (Raw.moment_uid m)) "" in
  if negb (truthy id) then mret None
  else
    let thumbnailUrl :=
      orDefault (or (Raw.thumbnail_url m) (Raw.thumbnailUrl m)) "" in
    let fullResUrl :=
      orDefault (or (or (or (Raw.image_url m) (Raw.photo_url m))
                        (Raw.imageUrl m)) (Raw.photoUrl m)) "" in
    let videoUrl := orUndefined (or (Raw.video_url m) (Raw.videoUrl m)) in
    let caption := orUndefined (Raw.caption m) in
    let overlays := orUndefined (Raw.overlays m) in
    let createTime := parseCreateTime h m in
    dateStr ← (if truthy createTime
               then toISOString h (default 0 createTime * 1000)
               else mret "");
    mret (Some {| id := id;
                  user := orDefault (or (Raw.user m) (Raw.sender_uid m))
                                    _localId;
                  imageUrl := or fullResUrl thumbnailUrl;
                  thumbnailUrl := or thumbnailUrl fullResUrl;
                  videoUrl := videoUrl;
                  caption := caption;
                  overlays := overlays;
                  createTime := createTime;
                  date := dateStr |}).

(** [(a, b) => b.createTime - a.createTime] *)
Definition newestFirst (a b : LocketMoment) : option Z :=
  tb ← createTime b; ta ← createTime a; Some (tb - ta).

(** [m !== null && !!(m.imageUrl || m.thumbnailUrl)] *)
Definition hasImage (m : LocketMoment) : bool :=
  truthy (or (imageUrl m) (thumbnailUrl m)).

(** What the call to the external service gives: a failure (the call
    threw, or the status was not ok, with the message of the error
    raised), or the entries of the reply: the array under
    [result]/[data], or the values of the object there that have an id
    (none when there is no object). *)
Inductive Reply : Type :=
| Failed (message : string)
| Entries (data : option (list Raw.t)).

Definition fetchLocketMoments (h : Host) (reply : Reply)
    (_localId : string) : outcome (list LocketMoment) :=
  match reply with
  | Failed message => Thrown (Error message)
  | Entries None => mret []
  | Entries (Some momentEntries) =>
      mapped ← mapM (reshape h _localId) momentEntries;
      mret (Js.sort newestFirst
              (List.filter hasImage (omap (fun m => m) mapped)))
  end.

Record Body : Type := mkBody {
  success : bool;
  data : option (list LocketMoment);
  total : option nat;
  message : option string;
}.

Record Response : Type := mkResponse { status : Z; body : Body }.

Definition failure (code : Z) (msg : string) : Response :=
  {| status := code;
     body := {| success := false; data := None; total := None;
                message := Some msg |} |}.

Record Request : Type := mkRequest {
  method : string;
  x_locket_token : option string;
  x_locket_uid : option string;
}.

(** The route handler; [locket] is the external service's answer to a
    call made with the given bearer token. *)
Definition handler (h : Host) (locket : string → Reply) (req : Request)
  : Response :=
  if negb (String.eqb (method req) "GET")
  then failure 405 "Method not allowed"
  else
    let idToken := x_locket_token req in
    let localId := x_locket_uid req in
    if negb (truthy idToken) || negb (truthy localId)
    then failure 401
           "Chưa đăng nhập Locket. Vui lòng kết nối tài khoản."
    else
      catch
        (moments ← fetchLocketMoments h (locket (default "" idToken))
                                      (default "" localId);
         mret {| status := 200;
                 body := {| success := true; data := Some moments;
                            total := Some (length moments);
                            message := None |} |})
        (fun error =>
           if includes (messageOf error) "401"
              || includes (toLowerCase (messageOf error)) "token"
           then failure 401
                  "Phiên đăng nhập Locket đã hết hạn. Vui lòng đăng nhập lại."
           else failure 500
                  (or (messageOf error) "Không thể tải ảnh từ Locket")).

End Moments.

(** ** pages/api/locket/sync.ts and reset.ts: the Locket handlers *)
Module Locket.
Import Db.

Record Request : Type := mkRequest {
  method : string;
  body_token : option string;          (* [req.body?.token] *)
  body_localId : option string;        (* [req.body?.localId] *)
  x_locket_token : option string;      (* [req.headers['x-locket-token']] *)
  x_locket_uid : option string;        (* [req.headers['x-locket-uid']] *)
}.

Record Body : Type := mkBody {
  success : bool;
  syncedCount : option nat;
  skippedCount : option nat;
  message : option string;
}.

Record Response : Type := mkResponse { status : Z; body : Body }.

Definition failure (code : Z) (msg : string) : Response :=
  {| status := code;
     body := {| success := false; syncedCount := None;
                skippedCount := None; message := Some msg |} |}.

(** [fetch(`${baseUrl}/api/locket/moments`, { headers })] followed by
    [.json()]: the body the moments route answers with, for the token
    and user id sent. *)
Definition MomentsApi : Type := string → string → outcome Moments.Body.

(** The moments route of this application behind that fetch. *)
Definition ownMomentsApi (h : Host) (locket : string → Moments.Reply)
  : MomentsApi :=
  fun idToken localId =>
    mret (Moments.body
            (Moments.handler h locket
               {| Moments.method := "GET";
                  Moments.x_locket_token := Some idToken;
                  Moments.x_locket_uid := Some localId |})).

(** [moment.thumbnailUrl || moment.imageUrl] *)
Definition hasImage (moment : Moments.LocketMoment) : bool :=
  truthy (or (Moments.thumbnailUrl moment) (Moments.imageUrl moment)).

(** [moment.date || (moment.createTime ? new
    Date(moment.createTime * 1000).toISOString() : new
    Date().toISOString())] *)
Definition dateStr (h : Host) (now : string)
    (moment : Moments.LocketMoment) : outcome string :=
  if truthy (Moments.date moment) then mret (Moments.date moment)
  else if truthy (Moments.createTime moment)
  then toISOString h (default 0 (Moments.createTime moment) * 1000)
  else mret now.

(** [moment.caption || `Locket ${moment.date || new
    Date(moment.createTime * 1000).toLocaleDateString('vi-VN')}`] *)
Definition titleOf (h : Host) (moment : Moments.LocketMoment) : string :=
  orDefault (Moments.caption moment)
    ("Locket " +:+
       or (Moments.date moment)
          (toLocaleDateString h
             (default 0 (Moments.createTime moment) * 1000))).

Definition descriptionOf (moment : Moments.LocketMoment) : string :=
  if truthy (Moments.videoUrl moment)
  then "Video từ Locket" else "Ảnh cá nhân từ Locket".

Definition slugOf (moment : Moments.LocketMoment) : string :=
  "locket-" +:+ Moments.id moment.

Module Sync.

(** The variables the [map] callback closes over. *)
Record Counters : Type := mkCounters {
  existingSlugs : gset string;
  syncedCount : nat;
  skippedCount : nat;
  nextId : Z;
}.

(** The [map] callback: [None] is the null of a skipped duplicate. *)
Definition convert (h : Host) (now localId : string) (existing : nat)
    (c : Counters) (moment : Moments.LocketMoment)
  : outcome (option ImageData * Counters) :=
  let slug := slugOf moment in
  if bool_decide (slug ∈ existingSlugs c)
  then mret (None, {| existingSlugs := existingSlugs c;
                      syncedCount := syncedCount c;
                      skippedCount := S (skippedCount c);
                      nextId := nextId c |})
  else
    let synced := S (syncedCount c) in
    created ← dateStr h now moment;
    mret (Some {| id := nextId c;
                  slug := slug;
                  title := titleOf h moment;
                  description := Some (descriptionOf moment);
                  image_url := or (Moments.imageUrl moment)
                                  (Moments.thumbnailUrl moment);
                  video_url := orUndefined (Moments.videoUrl moment);
                  thumbnail_url :=
                    Some (or (Moments.thumbnailUrl moment)
                             (Moments.imageUrl moment));
                  width := 1080;
                  height := 1080;
                  file_size := None;
                  created_at := created;
                  updated_at := now;
                  order_index := Z.of_nat (existing + synced);
                  source := Some "locket";
                  locket_user_id := Some localId;
                  caption := None;
                  overlays := None |},
          {| existingSlugs := {[ slug ]} ∪ existingSlugs c;
             syncedCount := synced;
             skippedCount := skippedCount c;
             nextId := nextId c + 1 |}).

(** [.map(callback)] over the moments, threading the counters. *)
Fixpoint convertAll (h : Host) (now localId : string) (existing : nat)
    (c : Counters) (moments : list Moments.LocketMoment)
  : outcome (list (option ImageData) * Counters) :=
  match moments with
  | [] => mret ([], c)
  | moment :: rest =>
      '(r, c1) ← convert h now localId existing c moment;
      '(rs, c2) ← convertAll h now localId existing c1 rest;
      mret (r :: rs, c2)
  end.

(** The inner [try]: what the handler takes from the database file. *)
Definition load (file : DbFile) : list ImageData * Z :=
  match file with
  | NoFile | Garbled => ([], 1)
  | LegacyArray l =>
      (l, foldr Z.max 0 (List.map (fun img => or (id img) 0) l) + 1)
  | Stored db =>
      (images db,
       or (Db.nextId db) (Z.of_nat (length (images db)) + 1))
  end.

Definition handler (h : Host) (now : string) (api : MomentsApi)
    (req : Request) (file : DbFile) : Response * DbFile :=
  if negb (String.eqb (method req) "POST")
  then (failure 405 "Method not allowed", file)
  else
    catch
      (let idToken := or (body_token req) (x_locket_token req) in
       let localId := or (body_localId req) (x_locket_uid req) in
       if negb (truthy idToken) || negb (truthy localId)
       then mret (failure 401
                    "Chưa đăng nhập Locket. Vui lòng kết nối tài khoản trước.",
                  file)
       else
         momentsResult ← api (default "" idToken) (default "" localId);
         if negb (Moments.success momentsResult)
            || negb (bool_decide (is_Some (Moments.data momentsResult)))
         then mret (failure 400
                      (orDefault (Moments.message momentsResult)
                                 "Không thể tải ảnh từ Locket"),
                    file)
         else
           let '(existingImages, nextId0) := load file in
           let start :=
             {| existingSlugs := list_to_set (slug <$> existingImages);
                syncedCount := 0; skippedCount := 0;
                nextId := nextId0 |} in
           '(converted, final) ←
             convertAll h now (default "" localId)
               (length existingImages) start
               (List.filter hasImage
                  (default [] (Moments.data momentsResult)));
           let newImages := omap (fun r => r) converted in
           if (length newImages =? 0)%nat
           then mret
                  ({| status := 200;
                      body :=
                        {| success := true;
                           Locket.syncedCount := Some 0%nat;
                           Locket.skippedCount :=
                             Some (skippedCount final);
                           message :=
                             Some (if (0 <? skippedCount final)%nat
                                   then "Tất cả " +:+
                                        pretty (skippedCount final) +:+
                                        " ảnh đã được đồng bộ trước đó"
                                   else "Không có ảnh mới để đồng bộ")
                        |} |},
                   file)
           else mret
                  ({| status := 200;
                      body :=
                        {| success := true;
                           Locket.syncedCount :=
                             Some (length newImages);
                           Locket.skippedCount :=
                             Some (skippedCount final);
                           message :=
                             Some ("Đã đồng bộ " +:+
                                   pretty (length newImages) +:+
                                   " ảnh cá nhân vào gallery") |} |},
                   Stored {| images := existingImages ++ newImages;
                             Db.nextId := nextId final |}))
      (fun error =>
         (failure 500 (or (messageOf error) "Lỗi khi đồng bộ ảnh"),
          file)).

End Sync.

Module Reset.

(** The [map] callback of the reset route; [nextId] is the counter it
    closes over, and [order_index: nextId - 1] is read after the
    increment. *)
Definition convert (h : Host) (now localId : string) (nextId : Z)
    (moment : Moments.LocketMoment) : outcome ImageData :=
  created ← dateStr h now moment;
  mret {| id := nextId;
          slug := slugOf moment;
          title := titleOf h moment;
          description := Some (descriptionOf moment);
          image_url := or (Moments.imageUrl moment)
                          (Moments.thumbnailUrl moment);
          video_url := orUndefined (Moments.videoUrl moment);
          thumbnail_url :=
            Some (or (Moments.thumbnailUrl moment)
                     (Moments.imageUrl moment));
          width := 1080;
          height := 1080;
          file_size := None;
          created_at := created;
          updated_at := now;
          order_index := (nextId + 1) - 1;
          source := Some "locket";
          locket_user_id := Some localId;
          caption := orUndefined (Moments.caption moment);
          overlays := orUndefined (Moments.overlays moment) |}.

Fixpoint convertAll (h : Host) (now localId : string) (nextId : Z)
    (moments : list Moments.LocketMoment)
  : outcome (list ImageData * Z) :=
  match moments with
  | [] => mret ([], nextId)
  | moment :: rest =>
      r ← convert h now localId nextId moment;
      '(rs, n) ← convertAll h now localId (nextId + 1) rest;
      mret (r :: rs, n)
  end.

Definition handler (h : Host) (now : string) (api : MomentsApi)
    (req : Request) (file : DbFile) : Response * DbFile :=
  if negb (String.eqb (method req) "POST")
  then (failure 405 "Method not allowed", file)
  else
    catch
      (let idToken := or (body_token req) (x_locket_token req) in
       let localId := or (body_localId req) (x_locket_uid req) in
       if negb (truthy idToken) || negb (truthy localId)
       then mret (failure 401 "Chưa đăng nhập Locket.", file)
       else
         momentsResult ← api (default "" idToken) (default "" localId);
         if negb (Moments.success momentsResult)
            || negb (bool_decide (is_Some (Moments.data momentsResult)))
         then mret (failure 400
                      (orDefault (Moments.message momentsResult)
                                 "Không thể tải ảnh từ Locket"),
                    file)
         else
           '(newImages, nextId) ←
             convertAll h now (default "" localId) 1
               (List.filter hasImage
                  (default [] (Moments.data momentsResult)));
           mret
             ({| status := 200;
                 body :=
                   {| success := true;
                      syncedCount := Some (length newImages);
                      skippedCount := None;
                      message :=
                        Some ("Đã reset và đồng bộ lại " +:+
                              pretty (length newImages) +:+
                              " ảnh/video từ Locket") |} |},
              Stored {| images := newImages; Db.nextId := nextId |}))
      (fun error =>
         (failure 500 (or (messageOf error) "Lỗi khi reset dữ liệu"),
          file)).

End Reset.

End Locket.

(** ** pages/api/images/index.ts: the public read route *)
Module ImagesApi.
Import Db.

(** [req.query.slug] *)
Inductive Query : Type :=
| Absent
| Single (s : string)
| Repeated (l : list string).

Record Request : Type := mkRequest { method : string; slug : Query }.

Inductive Body : Type :=
| ErrorBody (error : string)
| ImageBody (image : ImageData)
| ListBody (images : list ImageData).

Record Response : Type := mkResponse { status : Z; body : Body }.

(** The route has no [try]: what the store throws, it throws. *)
Definition handler (req : Request) : Fs Response :=
  if String.eqb (method req) "GET" then
    match slug req with
    | Single s =>
        if truthy s then
          bind (getImageBySlug s) (fun image =>
            match image with
            | None =>
                ret {| status := 404; body := ErrorBody "Image not found" |}
            | Some image => ret {| status := 200; body := ImageBody image |}
            end)
        else
          bind getAllImages (fun images =>
            ret {| status := 200; body := ListBody images |})
    | _ =>
        bind getAllImages (fun images =>
          ret {| status := 200; body := ListBody images |})
    end
  else ret {| status := 405; body := ErrorBody "Method not allowed" |}.

End ImagesApi.

(** ** pages/api/admin/images.ts: slugs and the upload branch *)
Module Admin.
Import Db.

Definition isAlnum (c : ascii) : bool :=
  let n := nat_of_ascii c in
  (((97 <=? n) && (n <=? 122)) || ((48 <=? n) && (n <=? 57)))%nat.

Definition isDot (c : ascii) : bool := Ascii.eqb c ".".
Definition isSlash (c : ascii) : bool := Ascii.eqb c "/".
Definition isDash (c : ascii) : bool := Ascii.eqb c "-".

Fixpoint takeWhile {A} (p : A → bool) (l : list A) : list A :=
  match l with
  | x :: l' => if p x then x :: takeWhile p l' else []
  | [] => []
  end.

Fixpoint dropWhile {A} (p : A → bool) (l : list A) : list A :=
  match l with
  | x :: l' => if p x then dropWhile p l' else l
  | [] => []
  end.

(** [.replace(/\.[^/.]+$/, '')]: the text from the last dot on, when
    at least one character follows that dot and none of them is a
    slash. *)
Definition stripExtension (s : list ascii) : list ascii :=
  let notSep c := negb (isDot c || isSlash c) in
  let r := rev s in
  match takeWhile notSep r, dropWhile notSep r with
  | _ :: _, dot :: stem => if isDot dot then rev stem else s
  | _, _ => s
  end.

(** [.replace(/[^a-z0-9]+/g, '-')]; [inRun] is true inside a run of
    characters already replaced by a dash. *)
Fixpoint dashRuns (inRun : bool) (s : list ascii) : list ascii :=
  match s with
  | [] => []
  | c :: s' =>
      if isAlnum c then c :: dashRuns false s'
      else if inRun then dashRuns true s'
      else "-"%char :: dashRuns true s'
  end.

(** [.replace(/^-+|-+$/g, '')] *)
Definition trimDashes (s : list ascii) : list ascii :=
  rev (dropWhile isDash (rev (dropWhile isDash s))).

Definition generateSlug (filename : string) : string :=
  string_of_list_ascii
    (trimDashes
       (dashRuns false
          (stripExtension
             (list_ascii_of_string (toLowerCase filename))))).

(** A multipart field: a string, or an array of them. *)
Inductive Field : Type :=
| One (s : string)
| Many (l : list string).

(** [Array.isArray(f) ? f[0] : f] *)
Definition first (f : option Field) : option string :=
  match f with
  | Some (One s) => Some s
  | Some (Many l) => head l
  | None => None
  end.

Record Upload : Type := mkUpload {
  originalFilename : option string;    (* [file.originalFilename] *)
  fields_title : option Field;
  fields_description : option Field;
  (** [sharp(finalPath).metadata()]: width and height, or a throw. *)
  metadata : outcome (option Z * option Z);
  stats_size : Z;                      (* [fs.statSync(finalPath).size] *)
}.

Inductive Body : Type :=
| ErrorBody (error : string)
| ImageBody (image : ImageData).

Record Response : Type := mkResponse { status : Z; body : Body }.

(** The record the upload branch hands to [createImage]; [dateNow] is
    [Date.now()]. *)
Definition imageData (dateNow : Z) (up : Upload)
  : outcome ImageData :=
  let original := default "null" (originalFilename up) in
  let filename := pretty dateNow +:+ "-" +:+ original in
  '(w, h) ← metadata up;
  let thumbFilename := "thumb-" +:+ filename in
  let title :=
    or (or (first (fields_title up))
           ((fun n => string_of_list_ascii
                        (stripExtension (list_ascii_of_string n)))
              <$> originalFilename up))
       (Some "Untitled") in
  let description := first (fields_description up) in
  let slug := generateSlug (orDefault (originalFilename up) filename) in
  mret {| id := 0;
          slug := slug;
          title := default "Untitled" title;
          description := orUndefined description;
          image_url := "/uploads/" +:+ filename;
          thumbnail_url := Some ("/uploads/" +:+ thumbFilename);
          video_url := None;
          width := orDefault w 0;
          height := orDefault h 0;
          file_size := Some (stats_size up);
          order_index := 0;
          created_at := "";
          updated_at := "";
          source := None;
          locket_user_id := None;
          caption := None;
          overlays := None |}.

(** The [try] of the upload branch, for a parsed form with an image;
    [now] is the timestamp [createImage] takes. *)
Definition upload (dateNow : Z) (now : string) (up : Upload)
    (file : DbFile) : Response * DbFile :=
  match (data ← imageData dateNow up; createImage now data file) with
  | Returned (newImage, file') =>
      ({| status := 201; body := ImageBody newImage |}, file')
  | Thrown _ =>
      ({| status := 500; body := ErrorBody "Failed to process image" |},
       file)
  end.

End Admin.

(** ** lib/images.ts: the reader behind the gallery pages *)
Module Images.

(** The mapped record. The reader takes the file as untyped JSON, so
    apart from [id], which goes through [String], a field holds
    whatever value the file had there. *)
Record ImageData : Type := mkImageData {
  id : string;
  slug : value;
  image_url : value;
  thumbnail_url : value;
  video_url : value;
  title : value;
  description : value;
  caption : value;
  width : value;
  height : value;
  created_at : value;
  order_index : value;
  source : value;
  overlays : value;
}.

(** database/images.json as this reader finds it. *)
Inductive DbFile : Type :=
| NoFile                             (* [fs.existsSync] is false *)
| Unreadable                         (* [fs.readFileSync] throws *)
| Contents (parsed : outcome value). (* the result of [JSON.parse] *)

(** The callback of [images.map]. *)
Definition convert (now : string) (img : value) : outcome ImageData :=
  img_id ← get img "id";
  img_slug ← get img "slug";
  img_image_url ← get img "image_url";
  img_thumbnailUrl ← get img "thumbnailUrl";
  img_thumbnail_url ← get img "thumbnail_url";
  img_video_url ← get img "video_url";
  img_videoUrl ← get img "videoUrl";
  img_title ← get img "title";
  img_caption ← get img "caption";
  img_description ← get img "description";
  img_width ← get img "width";
  img_height ← get img "height";
  img_created_at ← get img "created_at";
  img_order_index ← get img "order_index";
  img_source ← get img "source";
  img_overlays ← get img "overlays";
  mret {| id := toString (or (or img_id img_slug) (VStr ""));
          slug := or img_slug (VStr "");
          image_url := or (or img_image_url img_thumbnailUrl) (VStr "");
          thumbnail_url :=
            or (or (or img_thumbnail_url img_thumbnailUrl) img_image_url)
               (VStr "");
          video_url := or (or img_video_url img_videoUrl) VUndefined;
          title := or (or img_title img_caption) (VStr "");
          description := or img_description (VStr "");
          caption := or (or img_caption img_title) (VStr "");
          width := or img_width (VNum 800);
          height := or img_height (VNum 800);
          created_at := or img_created_at (VStr now);
          order_index := or img_order_index (VNum 0);
          source := or img_source (VStr "locket");
          overlays := or img_overlays VNull |}.

(** [(a, b) => new Date(b.created_at).getTime() - new
    Date(a.created_at).getTime()] *)
Definition newestFirst (h : Host) (a b : ImageData) : option Z :=
  tb ← getTime h (created_at b); ta ← getTime h (created_at a);
  Some (tb - ta).

(** [images.map(...)] on whatever [images] is: only an array has the
    method. *)
Definition mapImages (now : string) (images : value)
  : outcome (list ImageData) :=
  match images with
  | VArr items => mapM (convert now) items
  | _ => Thrown TypeError
  end.

(** The body of the [try]. *)
Definition readImages (h : Host) (now : string) (file : DbFile)
  : outcome (list ImageData) :=
  match file with
  | NoFile => mret []
  | Unreadable => Thrown (Error "EACCES: permission denied")
  | Contents parsed =>
      db ← parsed;
      images ← match db with
               | VArr _ => mret db
               | _ => db_images ← get db "images";
                      mret (or db_images (VArr []))
               end;
      mapped ← mapImages now images;
      mret (Js.sort (newestFirst h)
              (List.filter (fun img => truthy (image_url img)) mapped))
  end.

Definition getAllImages (h : Host) (now : string) (file : DbFile)
  : outcome (list ImageData) :=
  mret (catch (readImages h now file) (fun _ => [])).

(** [images.find(img => img.slug === slug) || null] *)
Definition getImageBySlug (h : Host) (now : string) (s : string)
    (file : DbFile) : outcome (option ImageData) :=
  images ← getAllImages h now file;
  mret (List.find
          (fun img =>
             match slug img with VStr x => String.eqb x s | _ => false end)
          images).

End Images.

(** ** pages/index.tsx, components/ImageModal.tsx: the gallery page *)
Module Gallery.
Import Images.

(** [Array.prototype.slice(start, end)] *)
Definition slice {A} (l : list A) (start final : Z) : list A :=
  let len := Z.of_nat (length l) in
  let from := if start <? 0 then Z.max (len + start) 0 else Z.min start len in
  let to := if final <? 0 then Z.max (len + final) 0 else Z.min final len in
  take (Z.to_nat (Z.max (to - from) 0)) (drop (Z.to_nat from) l).

(** [Array.prototype.findIndex]; -1 when nothing is found. *)
Definition findIndex {A} (P : A → Prop) `{∀ x, Decision (P x)} (l : list A)
  : Z :=
  match list_find P l with Some (i, _) => Z.of_nat i | None => -1 end.

(** [momentToImageData]; the date is computed only for a moment with a
    creation time. *)
Definition momentToImageData (h : Host) (now : string)
    (m : Moments.LocketMoment) : outcome ImageData :=
  created ← (if truthy (Moments.createTime m)
             then toISOString h (default 0 (Moments.createTime m) * 1000)
             else mret now);
  mret {| id := Moments.id m;
          slug := VStr (Moments.id m);
          image_url := VStr (or (Moments.imageUrl m) (Moments.thumbnailUrl m));
          thumbnail_url := VStr (Moments.thumbnailUrl m);
          video_url := match orUndefined (Moments.videoUrl m) with
                       | Some u => VStr u
                       | None => VUndefined
                       end;
          title := VStr (orDefault (Moments.caption m) "");
          description := VUndefined;
          caption := match orUndefined (Moments.caption m) with
                     | Some c => VStr c
                     | None => VUndefined
                     end;
          width := VNum 1;
          height := VNum 1;
          created_at := VStr created;
          order_index := VNum 0;
          source := VStr "locket";
          overlays := match Moments.overlays m with
                      | Some o => o
                      | None => VUndefined
                      end |}.

(** [(a, b) => b.createTime - a.createTime] on the moments as the
    browser has them: a time that was NaN on the server arrived as null
    and counts as 0 in the subtraction. *)
Definition newestFirst (a b : Moments.LocketMoment) : option Z :=
  Some (default 0 (Moments.createTime b) - default 0 (Moments.createTime a)).

(** The [try] of [fetchMoments]: the images the page shows for the
    answer of the moments route; [None] when [setImages] is not
    called. *)
Definition fetchMoments (h : Host) (now : string) (res : Moments.Response)
  : option (list ImageData) :=
  let result := Moments.body res in
  let ok := (200 <=? Moments.status res) && (Moments.status res <=? 299) in
  if ok && Moments.success result then
    let sorted := Js.sort newestFirst (default [] (Moments.data result)) in
    match mapM (momentToImageData h now) sorted with
    | Returned images => Some images
    | Thrown _ => None
    end
  else None.

Definition IMAGES_PER_PAGE : Z := 24.

(** [Math.max(1, Math.ceil(images.length / IMAGES_PER_PAGE))] *)
Definition totalPages (images : list ImageData) : Z :=
  Z.max 1 (- ((- Z.of_nat (length images)) `div` IMAGES_PER_PAGE)).

(** [images.slice(start, start + IMAGES_PER_PAGE)] with
    [start = (currentPage - 1) * IMAGES_PER_PAGE] *)
Definition paginatedImages (images : list ImageData) (currentPage : Z)
  : list ImageData :=
  let start := (currentPage - 1) * IMAGES_PER_PAGE in
  slice images start (start + IMAGES_PER_PAGE).

(** [Math.floor(imgIdx / IMAGES_PER_PAGE) + 1] *)
Definition pageOf (imgIdx : Z) : Z := imgIdx `div` IMAGES_PER_PAGE + 1.

(** The state of the page that navigation changes. *)
Record View : Type := mkView {
  currentPage : Z;
  selectedImage : option ImageData;
}.

(** [handleNavigate]: the page follows the image, which becomes the
    selected one. *)
Definition handleNavigate (images : list ImageData) (image : ImageData)
    (v : View) : View :=
  let imgIdx := findIndex (λ img, id img = id image) images in
  {| currentPage := if 0 <=? imgIdx then pageOf imgIdx else currentPage v;
     selectedImage := Some image |}.

(** The modal: [idx], [hasPrev], [hasNext]. *)
Definition idx (images : list ImageData) (displayImage : option ImageData)
  : Z :=
  match displayImage with
  | Some d => findIndex (λ i, id i = id d) images
  | None => -1
  end.

Definition hasPrev (i : Z) : bool := 0 <? i.

Definition hasNext (images : list ImageData) (i : Z) : bool :=
  (0 <=? i) && (i <? Z.of_nat (length images) - 1).

(** [goPrev], [goNext]: the image handed to [onNavigate], if it is
    called; under [hasPrev] and [hasNext] the index read is in range. *)
Definition goPrev (images : list ImageData) (displayImage : option ImageData)
  : option ImageData :=
  let i := idx images displayImage in
  if hasPrev i then images !! Z.to_nat (i - 1) else None.

Definition goNext (images : list ImageData) (displayImage : option ImageData)
  : option ImageData :=
  let i := idx images displayImage in
  if hasNext images i then images !! Z.to_nat (i + 1) else None.

End Gallery.

(** ** database/images.json between its writers and the gallery reader *)
Module Disk.
Import Db.

(** What [JSON.parse] finds under a key where [JSON.stringify] wrote an
    optional field: the value, or nothing (undefined is not written), or
    null (the upload branch writes [description: null]). *)
Definition optionalField (fields : gmap string value) (k : string)
    (o : option value) : Prop :=
  match o with
  | Some v => fields !! k = Some v
  | None => fields !! k = None ∨ fields !! k = Some VNull
  end.

(** [v] is a record of the record store as the file holds it. The
    writers use snake_case keys only. *)
Definition image (v : value) (r : ImageData) : Prop :=
  ∃ fields,
    v = VObj fields
    ∧ fields !! "id" = Some (VNum (id r))
    ∧ fields !! "slug" = Some (VStr (slug r))
    ∧ fields !! "title" = Some (VStr (title r))
    ∧ optionalField fields "description" (VStr <$> description r)
    ∧ fields !! "image_url" = Some (VStr (image_url r))
    ∧ optionalField fields "thumbnail_url" (VStr <$> thumbnail_url r)
    ∧ optionalField fields "video_url" (VStr <$> video_url r)
    ∧ fields !! "width" = Some (VNum (width r))
    ∧ fields !! "height" = Some (VNum (height r))
    ∧ fields !! "order_index" = Some (VNum (order_index r))
    ∧ fields !! "created_at" = Some (VStr (created_at r))
    ∧ optionalField fields "source" (VStr <$> source r)
    ∧ optionalField fields "caption" (VStr <$> caption r)
    ∧ optionalField fields "overlays" (overlays r)
    ∧ fields !! "thumbnailUrl" = None
    ∧ fields !! "videoUrl" = None.

(** [v] is the file content of [file], as either route leaves it. *)
Definition contents (v : value) (file : DbFile) : Prop :=
  match file with
  | Stored db =>
      ∃ fields items,
        v = VObj fields
        ∧ fields !! "images" = Some (VArr items)
        ∧ Forall2 image items (images db)
  | LegacyArray l => ∃ items, v = VArr items ∧ Forall2 image items l
  | _ => False
  end.

(** The object [JSON.stringify] then [JSON.parse] make of a record whose
    absent fields are undefined. *)
Definition setOptional (k : string) (o : option value)
    (fields : gmap string value) : gmap string value :=
  match o with Some v => <[ k := v ]> fields | None => fields end.

Definition encodeImage (r : ImageData) : value :=
  VObj (setOptional "description" (VStr <$> description r)
       (setOptional "thumbnail_url" (VStr <$> thumbnail_url r)
       (setOptional "video_url" (VStr <$> video_url r)
       (setOptional "file_size" (VNum <$> file_size r)
       (setOptional "source" (VStr <$> source r)
       (setOptional "locket_user_id" (VStr <$> locket_user_id r)
       (setOptional "caption" (VStr <$> caption r)
       (setOptional "overlays" (overlays r)
       (<[ "id" := VNum (id r) ]>
       (<[ "slug" := VStr (slug r) ]>
       (<[ "title" := VStr (title r) ]>
       (<[ "image_url" := VStr (image_url r) ]>
       (<[ "width" := VNum (width r) ]>
       (<[ "height" := VNum (height r) ]>
       (<[ "order_index" := VNum (order_index r) ]>
       (<[ "created_at" := VStr (created_at r) ]>
       {[ "updated_at" := VStr (updated_at r) ]})))))))))))))))).

Definition encode (db : Database) : value :=
  VObj (<[ "images" := VArr (encodeImage <$> images db) ]>
        {[ "nextId" := VNum (nextId db) ]}).

End Disk.

(** ** Vocabulary of the specification *)
Module Spec.
Import Db.

(** [a] is listed before [b]: by order index descending, and by id
    descending among records of one order index. *)
Definition listedBefore (a b : ImageData) : Prop :=
  order_index b < order_index a
  ∨ (order_index a = order_index b ∧ id b ≤ id a).

(** The records a database file holds, as the handlers read them. *)
Definition storedImages (file : DbFile) : list ImageData :=
  match file with
  | NoFile | Garbled => []
  | LegacyArray l => l
  | Stored db => images db
  end.

Definition slugs (file : DbFile) : list string :=
  slug <$> storedImages file.

Definition ids (file : DbFile) : list Z := id <$> storedImages file.

(** Every field of a record other than [id] and [updated_at] that the
    payload does not name is the same in [r'] as in [r]. *)
Definition unnamedFieldsKept (data : Partial.t) (r r' : ImageData)
  : Prop :=
  (Partial.slug data = None → slug r' = slug r)
  ∧ (Partial.title data = None → title r' = title r)
  ∧ (Partial.description data = None → description r' = description r)
  ∧ (Partial.image_url data = None → image_url r' = image_url r)
  ∧ (Partial.thumbnail_url data = None
     → thumbnail_url r' = thumbnail_url r)
  ∧ (Partial.video_url data = None → video_url r' = video_url r)
  ∧ (Partial.width data = None → width r' = width r)
  ∧ (Partial.height data = None → height r' = height r)
  ∧ (Partial.file_size data = None → file_size r' = file_size r)
  ∧ (Partial.order_index data = None → order_index r' = order_index r)
  ∧ (Partial.created_at data = None → created_at r' = created_at r)
  ∧ (Partial.source data = None → source r' = source r)
  ∧ (Partial.locket_user_id data = None
     → locket_user_id r' = locket_user_id r)
  ∧ (Partial.caption data = None → caption r' = caption r)
  ∧ (Partial.overlays data = None → overlays r' = overlays r).

(** A GET of the read route with the given slug parameter. *)
Definition get_ (q : ImagesApi.Query) : ImagesApi.Request :=
  {| ImagesApi.method := "GET"; ImagesApi.slug := q |}.

(** The token or the user id is in neither the body nor the headers. *)
Definition missingCredentials (req : Locket.Request) : Prop :=
  truthy (or (Locket.body_token req) (Locket.x_locket_token req)) = false
  ∨ truthy (or (Locket.body_localId req) (Locket.x_locket_uid req)) = false.

(** The token and the user id are both there, in the body or the headers. *)
Definition hasCredentials (req : Locket.Request) : Prop :=
  truthy (or (Locket.body_token req) (Locket.x_locket_token req)) = true
  ∧ truthy (or (Locket.body_localId req) (Locket.x_locket_uid req)) = true.

(** The credentials a Locket handler forwards to the moments API. *)
Definition idToken (req : Locket.Request) : string :=
  default "" (or (Locket.body_token req) (Locket.x_locket_token req)).
Definition localId (req : Locket.Request) : string :=
  default "" (or (Locket.body_localId req) (Locket.x_locket_uid req)).

(** The listing the moments route returns to a handler's request, when
    it returns one. *)
Definition listingFor (h : Host) (locket : string → Moments.Reply)
    (req : Locket.Request) : option (list Moments.LocketMoment) :=
  Moments.data
    (Moments.body
       (Moments.handler h locket
          {| Moments.method := "GET";
             Moments.x_locket_token := Some (idToken req);
             Moments.x_locket_uid := Some (localId req) |})).

(** The counters a sync run starts its [map] with. *)
Definition syncStart (file : DbFile) : Locket.Sync.Counters :=
  {| Locket.Sync.existingSlugs := list_to_set (slugs file);
     Locket.Sync.syncedCount := 0;
     Locket.Sync.skippedCount := 0;
     Locket.Sync.nextId := (Locket.Sync.load file).2 |}.

(** The writers of the database file. *)
Inductive Op : Type :=
| Insert (now : string) (data : ImageData)
| Update (now : string) (i : Z) (data : Partial.t)
| Delete (i : Z)
| SyncRun (h : Host) (now : string) (api : Locket.MomentsApi)
    (req : Locket.Request)
| ResetRun (h : Host) (now : string) (api : Locket.MomentsApi)
    (req : Locket.Request).

Definition isReset (op : Op) : bool :=
  match op with ResetRun _ _ _ _ => true | _ => false end.

(** The file a store operation leaves; a throw leaves the file found. *)
Definition fileAfter {A} (m : Fs A) (file : DbFile) : DbFile :=
  match m file with Returned (_, file') => file' | Thrown _ => file end.

Definition step (op : Op) (file : DbFile) : DbFile :=
  match op with
  | Insert now data => fileAfter (createImage now data) file
  | Update now i data => fileAfter (updateImage now i data) file
  | Delete i => fileAfter (deleteImage i) file
  | SyncRun h now api req => (Locket.Sync.handler h now api req file).2
  | ResetRun h now api req => (Locket.Reset.handler h now api req file).2
  end.

(** The ids an insert or a sync gives out: those of the records it
    appends to the ones found. *)
Definition assigned (op : Op) (file : DbFile) : list Z :=
  match op with
  | Insert _ _ | SyncRun _ _ _ _ =>
      drop (length (storedImages file)) (ids (step op file))
  | _ => []
  end.

(** A sequence of operations, with the ids given out along the way. *)
Fixpoint run (ops : list Op) (file : DbFile) : DbFile * list Z :=
  match ops with
  | [] => (file, [])
  | op :: rest =>
      let '(file', log) := run rest (step op file) in
      (file', assigned op file ++ log)
  end.

(** The next id a file holds; 1 for a file yet to be created. *)
Definition counter (file : DbFile) : Z :=
  match file with Stored db => nextId db | _ => 1 end.

(** Ids identify records and lie below the counter. *)
Definition wellNumbered (file : DbFile) : Prop :=
  match file with
  | NoFile => True
  | Stored db =>
      1 ≤ nextId db ∧ NoDup (id <$> images db)
      ∧ Forall (λ i, 1 ≤ i < nextId db) (id <$> images db)
  | _ => False
  end.

(** The creation date of a record can be computed for the moment. *)
Definition dateable (h : Host) (m : Moments.LocketMoment) : Prop :=
  ∀ now, ∃ s, Locket.dateStr h now m = Returned s.

(** No dash follows a dash; [afterDash] says that the text comes right
    after a dash, or at the start, where a dash is not wanted either. *)
Fixpoint singleDashes (afterDash : bool) (s : list ascii) : bool :=
  match s with
  | [] => true
  | c :: s' =>
      if Admin.isDash c then negb afterDash && singleDashes true s'
      else singleDashes false s'
  end.

(** Text made of the characters a-z, 0-9 and single dashes, with no
    dash at either end. *)
Definition slugText (s : list ascii) : Prop :=
  Forall (λ c, Admin.isAlnum c = true ∨ c = "-"%char) s
  ∧ singleDashes true s = true
  ∧ last s ≠ Some "-"%char.

End Spec.

(** ** Sample data *)
Module Sample.
Import Db.

Definition image (i : Z) (s : string) (order : Z) : ImageData :=
  {| id := i; slug := s; title := s; description := None;
     image_url := "/uploads/" +:+ s +:+ ".jpg"; thumbnail_url := None;
     video_url := None; width := 800; height := 600; file_size := None;
     order_index := order; created_at := "2024-01-01T00:00:00.000Z";
     updated_at := "2024-01-01T00:00:00.000Z"; source := None;
     locket_user_id := None; caption := None; overlays := None |}.

Definition db : Database :=
  {| images := [image 1 "dune" 0; image 2 "stone" 1; image 3 "clay" 1];
     nextId := 4 |}.

(** A payload that renames the record and tries to move it to id 9. *)
Definition rename : Partial.t :=
  Partial.mk (Some 9) None (Some "Stone wall") None None None None None
    None None None None None None None None None.

Definition host : Host :=
  {| toISOString := fun ms =>
       if (0 <=? ms) && (ms <=? 8640000000000000)
       then Returned ("T" +:+ pretty ms) else Thrown RangeError;
     toLocaleDateString := fun ms => "D" +:+ pretty ms;
     getTime := fun v =>
       match v with VNum n => Some n | _ => None end |}.

(** A POST that carries no Locket token. *)
Definition anonymous : Locket.Request :=
  {| Locket.method := "POST"; Locket.body_token := None;
     Locket.body_localId := Some "user-1";
     Locket.x_locket_token := Some ""; Locket.x_locket_uid := None |}.

(** A POST with both credentials in the body. *)
Definition signedIn : Locket.Request :=
  {| Locket.method := "POST"; Locket.body_token := Some "token-1";
     Locket.body_localId := Some "user-1";
     Locket.x_locket_token := None; Locket.x_locket_uid := None |}.

Definition rawMoment (uid : string) (url : option string) (seconds : Z)
  : Moments.Raw.t :=
  Moments.Raw.mk (Some uid) None None None None url None None None None
    None None None (Some (Moments.Raw.Seconds seconds)) None None None None.

(** The external service: three moments for the sample token, the second
    without any image; a refusal for any other token. *)
Definition locket : string → Moments.Reply :=
  fun token =>
    if String.eqb token "token-1"
    then Moments.Entries
           (Some [rawMoment "m1" (Some "https://cdn/m1.webp") 1700000000;
                  rawMoment "m2" None 1700000500;
                  rawMoment "m3" (Some "https://cdn/m3.webp") 1700001000])
    else Moments.Failed "Locket API error (401)".

Definition desertSunset : Admin.Upload :=
  {| Admin.originalFilename := Some "Desert Sunset.jpg";
     Admin.fields_title := None;
     Admin.fields_description := Some (Admin.One "Dunes at dusk");
     Admin.metadata := Returned (Some 1200, Some 800);
     Admin.stats_size := 345678 |}.

(** The file after the same picture was uploaded twice into a new
    gallery. *)
Definition uploadedTwice : DbFile :=
  Eval vm_compute in
    (Admin.upload 1717236060000 "2024-06-01T10:01:00.000Z" desertSunset
       (Admin.upload 1717236000000 "2024-06-01T10:00:00.000Z" desertSunset
          NoFile).2).2.

(** The listing the moments route makes of it for [signedIn]: m3, then
    m1. *)
Definition listing : list Moments.LocketMoment :=
  Eval vm_compute in default [] (Spec.listingFor host locket signedIn).

(** A moments API that must not be called. *)
Definition unreachable : Locket.MomentsApi :=
  fun _ _ => Thrown (Error "fetch failed").

(** The images the gallery page shows for that listing. *)
Definition tiles : list Images.ImageData :=
  Eval vm_compute in
    default []
      (Gallery.fetchMoments host "2024-06-01T10:00:00.000Z"
         (Moments.handler host locket
            {| Moments.method := "GET";
               Moments.x_locket_token := Some "token-1";
               Moments.x_locket_uid := Some "user-1" |})).

End Sample.

(** * Properties *)

(** ** [Array.prototype.sort] *)
Lemma StronglySorted_weaken {A} (R1 R2 : A → A → Prop) l :
  (∀ x y, R1 x y → R2 x y) → StronglySorted R1 l → StronglySorted R2 l.
Proof.
  intros HR. induction 1 as [|x l Hl IH Hx]; constructor; [done|].
  eapply Forall_impl; [exact Hx|]. intros y. apply HR.
Qed.

Section sort.
Context {A : Type} (cmp : A → A → option Z).

Lemma sortInsert_Permutation x l : Js.sortInsert cmp x l ≡ₚ x :: l.
Proof.
  induction l as [|y l IH]; simpl; [done|].
  destruct (Js.keepsBefore cmp x y); [done|].
  rewrite IH. apply Permutation_swap.
Qed.

Lemma sort_Permutation l : Js.sort cmp l ≡ₚ l.
Proof.
  induction l as [|x l IH]; simpl; [done|].
  by rewrite sortInsert_Permutation, IH.
Qed.

Lemma sort_length l : length (Js.sort cmp l) = length l.
Proof. by rewrite sort_Permutation. Qed.

Lemma sort_Forall (P : A → Prop) l : Forall P l → Forall P (Js.sort cmp l).
Proof. by rewrite sort_Permutation. Qed.

Lemma elem_of_sort x l : x ∈ Js.sort cmp l ↔ x ∈ l.
Proof. by rewrite sort_Permutation. Qed.

(** With a comparator that orders any two elements one way or the other
    and does so transitively, every element of the result is kept
    before all the later ones. *)
Section ordered.
Let R (x y : A) : Prop := Js.keepsBefore cmp x y = true.
Hypothesis total : ∀ x y, R x y ∨ R y x.
Hypothesis trans : ∀ x y z, R x y → R y z → R x z.

Lemma sortInsert_StronglySorted x l :
  StronglySorted R l → StronglySorted R (Js.sortInsert cmp x l).
Proof.
  induction 1 as [|y l Hl IH Hy]; simpl.
  - repeat constructor.
  - destruct (Js.keepsBefore cmp x y) eqn:Hxy.
    + constructor; [by constructor|].
      constructor; [done|].
      eapply Forall_impl; [exact Hy|]. intros z Hz. by eapply trans.
    + constructor; [done|].
      rewrite sortInsert_Permutation. constructor; [|done].
      destruct (total x y) as [Hx|Hx]; [|done].
      unfold R in Hx. congruence.
Qed.

Lemma sort_StronglySorted l : StronglySorted R (Js.sort cmp l).
Proof.
  induction l as [|x l IH]; simpl; [constructor|].
  by apply sortInsert_StronglySorted.
Qed.
End ordered.
End sort.

(** ** lib/db.ts *)
Section record_store.
Import Db Spec.

Lemma keepsBefore_byOrderThenId a b :
  Js.keepsBefore byOrderThenId a b = true ↔ listedBefore a b.
Proof.
  unfold Js.keepsBefore, byOrderThenId, Js.or, truthy, truthy_Z, listedBefore.
  destruct (Z.eqb_spec (order_index b - order_index a) 0); simpl;
    rewrite Z.leb_le; lia.
Qed.

Lemma listedBefore_total a b : listedBefore a b ∨ listedBefore b a.
Proof. unfold listedBefore. lia. Qed.

Lemma listedBefore_trans a b c :
  listedBefore a b → listedBefore b c → listedBefore a c.
Proof. unfold listedBefore. lia. Qed.

Lemma sort_byOrderThenId l :
  StronglySorted listedBefore (Js.sort byOrderThenId l).
Proof.
  eapply StronglySorted_weaken;
    [|apply (sort_StronglySorted byOrderThenId)].
  - intros a b. apply keepsBefore_byOrderThenId.
  - intros a b. rewrite !keepsBefore_byOrderThenId.
    apply listedBefore_total.
  - intros a b c. rewrite !keepsBefore_byOrderThenId.
    apply listedBefore_trans.
Qed.

(** C6. List-all returns every stored record, each exactly once, in an
    order where a record comes before all records of a lower order
    index and, among those of its own order index, before all records
    of a lower id. The file is left as it was. *)
Theorem getAllImages_sorted (db : Database) :
  ∃ l, getAllImages (Stored db) = Returned (l, Stored db)
       ∧ l ≡ₚ images db
       ∧ StronglySorted listedBefore l.
Proof.
  exists (Js.sort byOrderThenId (images db)). split; [done|].
  split; [apply sort_Permutation|apply sort_byOrderThenId].
Qed.

Example getAllImages_sample :
  getAllImages (Stored Sample.db)
  = Returned ([Sample.image 3 "clay" 1; Sample.image 2 "stone" 1;
               Sample.image 1 "dune" 0], Stored Sample.db).
Proof. reflexivity. Qed.

End record_store.

Section record_store_updates.
Import Db Spec.

Lemma fmap_NoDup_inj {A B} (f : A → B) (l : list A) x y :
  NoDup (f <$> l) → x ∈ l → y ∈ l → f x = f y → x = y.
Proof.
  intros Hnd [i Hi]%list_elem_of_lookup [j Hj]%list_elem_of_lookup Hf.
  assert (i = j) as ->; [|congruence].
  eapply NoDup_lookup; [exact Hnd| |].
  - by rewrite list_lookup_fmap, Hi.
  - by rewrite list_lookup_fmap, Hj, Hf.
Qed.

Lemma elem_of_delete_NoDup {A} (l : list A) k x y :
  NoDup l → l !! k = Some x → y ∈ delete k l ↔ y ∈ l ∧ y ≠ x.
Proof.
  intros Hnd Hk.
  rewrite <-(take_drop_middle l k x Hk) in Hnd at 1.
  rewrite <-(take_drop_middle l k x Hk) at 2.
  rewrite delete_take_drop.
  apply NoDup_app in Hnd as (_ & Hdisj & [Hx _]%NoDup_cons).
  rewrite !elem_of_app, elem_of_cons. split.
  - intros [Hy|Hy]; (split; [tauto|intros ->]).
    + apply (Hdisj x); [done|]. by left.
    + done.
  - intros [[Hy|[->|Hy]] Hne]; tauto.
Qed.

(** The record [findIndex] arrives at, when ids identify records. *)
Lemma findIndex_elem_of l r :
  r ∈ l → NoDup (id <$> l) →
  ∃ k, findIndex (id r) l = Some (k, r) ∧ l !! k = Some r.
Proof.
  intros Hr Hnd. unfold findIndex.
  destruct (list_find_elem_of (λ img, id img = id r) l r Hr eq_refl)
    as [[k x] Hfind].
  pose proof Hfind as (Hk & Hid & _)%list_find_Some.
  assert (x = r) as ->.
  { eapply (fmap_NoDup_inj id); [done| |done..].
    by eapply list_elem_of_lookup_2. }
  eauto.
Qed.

Lemma findIndex_None i l : i ∉ id <$> l → findIndex i l = None.
Proof.
  intros Hi. apply list_find_None, Forall_forall. intros x Hx ?.
  apply Hi, list_elem_of_fmap. eauto.
Qed.

(** C5. With ids identifying records, deleting a stored record by its
    id answers true; list-all then no longer returns the record (and
    still returns every other one); a second delete of the same id
    answers false and leaves the file as it is. *)
Theorem deleteImage_then_not_found (db : Database) (r : ImageData) :
  r ∈ images db → NoDup (id <$> images db) →
  ∃ db',
    deleteImage (id r) (Stored db) = Returned (true, Stored db')
    ∧ (∃ l, getAllImages (Stored db') = Returned (l, Stored db')
            ∧ (r ∉ l)
            ∧ (∀ r', r' ∈ images db → r' ≠ r → r' ∈ l))
    ∧ deleteImage (id r) (Stored db') = Returned (false, Stored db').
Proof.
  intros Hr Hnd.
  destruct (findIndex_elem_of _ _ Hr Hnd) as (k & Hfind & Hk).
  pose proof (NoDup_fmap_1 id _ Hnd) as Hnd'.
  exists {| images := delete k (images db); nextId := nextId db |}.
  split; [|split].
  - unfold deleteImage, bind, initDB. by rewrite Hfind.
  - eexists. split; [reflexivity|]. simpl. split.
    + rewrite elem_of_sort, (elem_of_delete_NoDup _ k r) by done. tauto.
    + intros r' Hr' Hne.
      rewrite elem_of_sort, (elem_of_delete_NoDup _ k r) by done. tauto.
  - unfold deleteImage, bind, initDB. simpl.
    rewrite findIndex_None; [done|].
    intros (x & Hid & Hx)%list_elem_of_fmap.
    apply (elem_of_delete_NoDup _ k r) in Hx as [Hx Hne]; [|done..].
    apply Hne. symmetry. by eapply (fmap_NoDup_inj id).
Qed.

Lemma deleteImage_then_not_found_witness :
  ∃ db',
    deleteImage 2 (Stored Sample.db) = Returned (true, Stored db')
    ∧ (∃ l, getAllImages (Stored db') = Returned (l, Stored db')
            ∧ (Sample.image 2 "stone" 1 ∉ l)
            ∧ (∀ r', r' ∈ images Sample.db
                     → r' ≠ Sample.image 2 "stone" 1 → r' ∈ l))
    ∧ deleteImage 2 (Stored db') = Returned (false, Stored db').
Proof.
  apply (deleteImage_then_not_found Sample.db (Sample.image 2 "stone" 1)).
  - apply list_elem_of_further, list_elem_of_here.
  - exact (bool_decide_unpack (NoDup (id <$> images Sample.db)) I).
Defined.

(** C4. With ids identifying records, updating a stored record by its
    id returns a record with that same id, whatever id the payload
    carries, stamped with the time of the update, and with every other
    field the payload does not name as it was stored; the returned
    record is what the file then holds in the place of the old one. *)
Theorem updateImage_preserves_id_and_frame
    (db : Database) (r : ImageData) (now : string) (data : Partial.t) :
  r ∈ images db → NoDup (id <$> images db) →
  ∃ r' db' k,
    updateImage now (id r) data (Stored db) = Returned (Some r', Stored db')
    ∧ id r' = id r
    ∧ updated_at r' = now
    ∧ unnamedFieldsKept data r r'
    ∧ images db !! k = Some r
    ∧ images db' = <[k := r']> (images db)
    ∧ nextId db' = nextId db.
Proof.
  intros Hr Hnd.
  destruct (findIndex_elem_of _ _ Hr Hnd) as (k & Hfind & Hk).
  eexists _, _, k. split.
  { unfold updateImage, bind, initDB. rewrite Hfind. reflexivity. }
  repeat split; try done; simpl; by intros ->.
Qed.

Lemma updateImage_preserves_id_and_frame_witness :
  ∃ r' db' k,
    updateImage "2024-06-01T10:00:00.000Z" 2 Sample.rename
      (Stored Sample.db) = Returned (Some r', Stored db')
    ∧ id r' = 2
    ∧ updated_at r' = "2024-06-01T10:00:00.000Z"
    ∧ unnamedFieldsKept Sample.rename (Sample.image 2 "stone" 1) r'
    ∧ images Sample.db !! k = Some (Sample.image 2 "stone" 1)
    ∧ images db' = <[k := r']> (images Sample.db)
    ∧ nextId db' = nextId Sample.db.
Proof.
  apply (updateImage_preserves_id_and_frame
           Sample.db (Sample.image 2 "stone" 1)).
  - apply list_elem_of_further, list_elem_of_here.
  - exact (bool_decide_unpack (NoDup (id <$> images Sample.db)) I).
Defined.

End record_store_updates.

(** ** pages/api/images/index.ts *)
Section read_api.
Import Db Spec ImagesApi.

Lemma truthy_string_nonempty (s : string) : truthy s = true ↔ s ≠ "".
Proof.
  unfold truthy, truthy_string. destruct (String.eqb_spec s ""); simpl.
  - split; [done|congruence].
  - split; [done|reflexivity].
Qed.

Lemma find_slug_None (s : string) (l : list ImageData) :
  (∀ r, r ∈ l → Db.slug r ≠ s) →
  List.find (λ img, String.eqb (Db.slug img) s) l = None.
Proof.
  induction l as [|x l IH]; simpl; intros Hall; [done|].
  destruct (String.eqb_spec (Db.slug x) s) as [Heq|_].
  - destruct (Hall x); [apply list_elem_of_here|done].
  - apply IH. intros r Hr. apply Hall. by apply list_elem_of_further.
Qed.

Lemma find_slug_Some (s : string) (l : list ImageData) r0 :
  r0 ∈ l → Db.slug r0 = s →
  ∃ r, List.find (λ img, String.eqb (Db.slug img) s) l = Some r
       ∧ r ∈ l ∧ Db.slug r = s.
Proof.
  induction l as [|x l IH]; simpl; intros Hin Hs.
  - by apply elem_of_nil in Hin.
  - destruct (String.eqb_spec (Db.slug x) s) as [Heq|Hne].
    + exists x. split; [done|]. split; [apply list_elem_of_here|done].
    + apply elem_of_cons in Hin as [->|Hin]; [done|].
      destruct (IH Hin Hs) as (r & Hfind & Hr & Hslug).
      exists r. split; [done|]. split; [by apply list_elem_of_further|done].
Qed.



(** The other requests the route answers: an empty or a repeated slug
    gets the full list, any other method a 405. *)
Lemma read_api_other (db : Database) (req : Request) :
  (method req = "GET" → slug req = Single "" ∨ (∃ l, slug req = Repeated l) →
   handler req (Stored db)
   = Returned ({| status := 200;
                  body := ListBody (Js.sort byOrderThenId (images db)) |},
               Stored db))
  ∧ (method req ≠ "GET" →
     handler req (Stored db)
     = Returned ({| status := 405; body := ErrorBody "Method not allowed" |},
                 Stored db)).
Proof.
  unfold handler. split.
  - intros -> [->|[l ->]]; reflexivity.
  - intros Hne. destruct (String.eqb_spec (method req) "GET"); done.
Qed.

End read_api.

(** ** pages/api/locket/sync.ts, reset.ts: the credential check *)
Section credentials.
Import Db Spec Locket.

(** C10. A sync or reset POST without the Locket token or without the
    user id is answered 401 with success false, and the database file is
    the one found: the answer is fixed before the moments API or the file
    is looked at, so it is the same for every API and every file. *)
Theorem locket_requires_credentials
    (h : Host) (now : string) (api : MomentsApi) (req : Request)
    (file : DbFile) :
  method req = "POST" → missingCredentials req →
  Sync.handler h now api req file
  = (failure 401
       "Chưa đăng nhập Locket. Vui lòng kết nối tài khoản trước.", file)
  ∧ Reset.handler h now api req file
    = (failure 401 "Chưa đăng nhập Locket.", file)
  ∧ status (Sync.handler h now api req file).1 = 401
  ∧ success (body (Sync.handler h now api req file).1) = false
  ∧ status (Reset.handler h now api req file).1 = 401
  ∧ success (body (Reset.handler h now api req file).1) = false.
Proof.
  intros Hpost Hmissing.
  assert (negb (truthy (or (body_token req) (x_locket_token req)))
          || negb (truthy (or (body_localId req) (x_locket_uid req)))
          = true) as Hcheck.
  { destruct Hmissing as [-> | ->]; [done|]. apply orb_true_r. }
  unfold Sync.handler, Reset.handler.
  rewrite Hpost, Hcheck. simpl. done.
Qed.

Lemma locket_requires_credentials_witness :
  Sync.handler Sample.host "2024-06-01T10:00:00.000Z" Sample.unreachable
    Sample.anonymous (Stored Sample.db)
  = (failure 401
       "Chưa đăng nhập Locket. Vui lòng kết nối tài khoản trước.",
     Stored Sample.db)
  ∧ Reset.handler Sample.host "2024-06-01T10:00:00.000Z" Sample.unreachable
      Sample.anonymous (Stored Sample.db)
    = (failure 401 "Chưa đăng nhập Locket.", Stored Sample.db)
  ∧ status (Sync.handler Sample.host "2024-06-01T10:00:00.000Z"
              Sample.unreachable Sample.anonymous (Stored Sample.db)).1
    = 401
  ∧ success (body (Sync.handler Sample.host "2024-06-01T10:00:00.000Z"
                     Sample.unreachable Sample.anonymous
                     (Stored Sample.db)).1) = false
  ∧ status (Reset.handler Sample.host "2024-06-01T10:00:00.000Z"
              Sample.unreachable Sample.anonymous (Stored Sample.db)).1
    = 401
  ∧ success (body (Reset.handler Sample.host "2024-06-01T10:00:00.000Z"
                     Sample.unreachable Sample.anonymous
                     (Stored Sample.db)).1) = false.
Proof.
  apply locket_requires_credentials.
  - reflexivity.
  - left. reflexivity.
Defined.

(** Any other method is turned away with 405 before the credentials are
    looked at; the file is not touched either. *)
Lemma locket_requires_post
    (h : Host) (now : string) (api : MomentsApi) (req : Request)
    (file : DbFile) :
  method req ≠ "POST" →
  Sync.handler h now api req file = (failure 405 "Method not allowed", file)
  ∧ Reset.handler h now api req file
    = (failure 405 "Method not allowed", file).
Proof.
  intros Hne. unfold Sync.handler, Reset.handler.
  destruct (String.eqb_spec (method req) "POST"); done.
Qed.

End credentials.

(** ** lib/images.ts *)
Section frontend_reader.
Import Images.

Lemma readImages_filtered (h : Host) (now : string) (file : DbFile) l :
  readImages h now file = Returned l →
  Forall (λ img, truthy (image_url img) = true) l.
Proof.
  unfold readImages. destruct file as [| |[db|e]]; simpl.
  - intros [= <-]. constructor.
  - done.
  - destruct (match db with
              | VArr _ => mret db
              | _ => db_images ← get db "images"; mret (or db_images (VArr []))
              end) as [images|e]; simpl; [|done].
    destruct (mapImages now images) as [mapped|e]; simpl; [|done].
    intros [= <-]. apply sort_Forall, Forall_forall.
    intros img Himg. apply list_elem_of_In, filter_In in Himg. tauto.
  - done.
Qed.

(** C9. Whatever the database file is, the reader returns a list and
    never throws. When the file is missing, cannot be read or cannot be
    parsed, and more generally when anything in the reading throws (a
    null root, an [images] that is not an array, a null record), the
    list is empty. Every record of the list has a truthy image URL, so
    never the empty string. *)
Theorem frontend_getAllImages_safe (h : Host) (now : string) (file : DbFile) :
  ∃ l, getAllImages h now file = Returned l
       ∧ (file = NoFile ∨ file = Unreadable
          ∨ (∃ e, file = Contents (Thrown e)) → l = [])
       ∧ (∀ e, readImages h now file = Thrown e → l = [])
       ∧ Forall (λ img, truthy (image_url img) = true
                        ∧ image_url img ≠ VStr ""
                        ∧ image_url img ≠ VUndefined) l.
Proof.
  exists (catch (readImages h now file) (λ _, [])).
  split; [done|]. split; [|split].
  - intros [->|[->|[e ->]]]; reflexivity.
  - by intros e ->.
  - destruct (readImages h now file) as [l|e] eqn:Hread; simpl; [|done].
    eapply Forall_impl; [by eapply readImages_filtered|].
    simpl. intros img Himg. split; [done|].
    split; intros Heq; by rewrite Heq in Himg.
Qed.

(** Malformed contents that end in the empty list. *)
Example frontend_malformed (h : Host) (now : string) :
  getAllImages h now (Contents (Returned VNull)) = Returned []
  ∧ getAllImages h now (Contents (Returned (VNum 7))) = Returned []
  ∧ getAllImages h now
      (Contents (Returned (VObj {[ "images" := VStr "none" ]})))
    = Returned []
  ∧ getAllImages h now
      (Contents (Returned (VArr [VObj {[ "slug" := VStr "a" ]}; VNull])))
    = Returned []
  ∧ getAllImages h now
      (Contents (Returned (VArr [VObj {[ "slug" := VStr "a" ]}])))
    = Returned [].
Proof. repeat split; reflexivity. Qed.

Lemma frontend_getAllImages_safe_witness :
  getAllImages Sample.host "2024-06-01T10:00:00.000Z"
    (Contents (Returned (VObj {[ "images" := VNum 5 ]})))
  = Returned []
  ∧ getAllImages Sample.host "2024-06-01T10:00:00.000Z"
      (Contents (Thrown SyntaxError))
    = Returned [].
Proof.
  split.
  - destruct (frontend_getAllImages_safe Sample.host
                "2024-06-01T10:00:00.000Z"
                (Contents (Returned (VObj {[ "images" := VNum 5 ]}))))
      as (l & Hget & _ & Hthrown & _).
    by rewrite (Hthrown TypeError eq_refl) in Hget.
  - destruct (frontend_getAllImages_safe Sample.host
                "2024-06-01T10:00:00.000Z" (Contents (Thrown SyntaxError)))
      as (l & Hget & Hfail & _).
    rewrite Hfail in Hget; [done|]. right. right. by eexists.
Defined.

(** A file of two records, the first without any image URL: only the
    second is listed, with the defaults of the reader. *)
Example frontend_filters (h : Host) (now : string) :
  getAllImages h now
    (Contents
       (Returned
          (VObj {[ "images" :=
                     VArr [VObj {[ "slug" := VStr "a" ]};
                           VObj (<[ "id" := VNum 3 ]>
                                   {[ "thumbnailUrl" := VStr "/t/b.webp" ]})
                          ] ]})))
  = Returned
      [{| id := "3"; slug := VStr ""; image_url := VStr "/t/b.webp";
          thumbnail_url := VStr "/t/b.webp"; video_url := VUndefined;
          title := VStr ""; description := VStr ""; caption := VStr "";
          width := VNum 800; height := VNum 800; created_at := VStr now;
          order_index := VNum 0; source := VStr "locket";
          overlays := VNull |}].
Proof. reflexivity. Qed.

(** This reader lists by creation date, newest first, not by order
    index: the order of list-all above is that of the record store. *)
Example frontend_lists_newest_first :
  slug <$> default []
             (match getAllImages Sample.host "now"
                      (Contents
                         (Returned
                            (VArr
                               [VObj (<[ "slug" := VStr "first" ]>
                                      (<[ "order_index" := VNum 9 ]>
                                       (<[ "created_at" := VNum 1000 ]>
                                        {[ "image_url" := VStr "/a" ]})));
                                VObj (<[ "slug" := VStr "second" ]>
                                      (<[ "order_index" := VNum 1 ]>
                                       (<[ "created_at" := VNum 2000 ]>
                                        {[ "image_url" := VStr "/b" ]})))])))
              with Returned l => Some l | Thrown _ => None end)
  = [VStr "second"; VStr "first"].
Proof. vm_compute. reflexivity. Qed.

End frontend_reader.

(** ** Slugs: pages/api/admin/images.ts, sync.ts, reset.ts *)
Section slugs.
Import Db Spec.

Example generateSlug_examples :
  Admin.generateSlug "Desert Sunset.jpg" = "desert-sunset"
  ∧ Admin.generateSlug "IMG_0042.final.PNG" = "img-0042-final"
  ∧ Admin.generateSlug "--Été 2024!!.jpeg" = "t-2024"
  ∧ Admin.generateSlug "archive.tar.gz" = "archive-tar"
  ∧ Admin.generateSlug "no extension" = "no-extension"
  ∧ Admin.generateSlug ".jpg" = "".
Proof. repeat split; vm_compute; reflexivity. Qed.

(** The upload branch, for a named file whose metadata can be read and
    a store that [initDB] can open. *)
Lemma upload_slug (dateNow : Z) (now : string) (up : Admin.Upload)
    (file file0 : DbFile) (db : Database) (name : string) (w h : option Z) :
  Admin.originalFilename up = Some name → name ≠ "" →
  Admin.metadata up = Returned (w, h) →
  initDB file = Returned (db, file0) →
  ∃ r, Admin.upload dateNow now up file
       = ({| Admin.status := 201; Admin.body := Admin.ImageBody r |},
          Stored {| images := images db ++ [r]; nextId := nextId db + 1 |})
       ∧ slug r = Admin.generateSlug name
       ∧ id r = nextId db.
Proof.
  intros Hname Hne%truthy_string_nonempty Hmeta Hinit.
  unfold Admin.upload, Admin.imageData. rewrite Hmeta, Hname. simpl.
  unfold createImage, bind. rewrite Hinit. simpl.
  eexists. split; [reflexivity|]. simpl. split; [|done].
  unfold Js.or. by rewrite Hne.
Qed.



(** The example of the specification: the picture "Desert Sunset.jpg"
    uploaded into a new gallery is stored under the slug desert-sunset,
    and a GET of the read route with that slug returns the record, whose
    title is the file name without its extension. *)
Example desert_sunset_upload_then_get :
  ∃ r file',
    Admin.upload 1717236000000 "2024-06-01T10:00:00.000Z"
      Sample.desertSunset NoFile
    = ({| Admin.status := 201; Admin.body := Admin.ImageBody r |}, file')
    ∧ slug r = "desert-sunset"
    ∧ title r = "Desert Sunset"
    ∧ ImagesApi.handler (get_ (ImagesApi.Single "desert-sunset")) file'
      = Returned ({| ImagesApi.status := 200;
                     ImagesApi.body := ImagesApi.ImageBody r |}, file').
Proof. eexists _, _. repeat split; vm_compute; reflexivity. Qed.

End slugs.

(** ** pages/api/locket/moments.ts: what a listing is made of *)
Section moments_listing.
Import Spec.

Lemma mapM_Returned {A B} (f : A → outcome B) (l : list A) (ys : list B) :
  Js.mapM f l = Returned ys → Forall2 (λ x y, f x = Returned y) l ys.
Proof.
  revert ys. induction l as [|x l IH]; simpl; intros ys.
  - intros [= <-]. constructor.
  - destruct (f x) as [y|e] eqn:Hx; simpl; [|done].
    destruct (Js.mapM f l) as [ys'|e]; simpl; [|done].
    intros [= <-]. constructor; [done|]. by apply IH.
Qed.

Lemma truthy_or_string (a b : string) :
  truthy (Js.or a b) = truthy a || truthy b.
Proof. unfold Js.or. by destruct (truthy a) eqn:Ha; simpl. Qed.

Lemma hasImage_agree (m : Moments.LocketMoment) :
  Locket.hasImage m = Moments.hasImage m.
Proof.
  unfold Locket.hasImage, Moments.hasImage.
  rewrite !truthy_or_string. apply orb_comm.
Qed.

(** A reshaped entry has a date exactly when it has a creation time, and
    then the host could render that time. *)
Lemma reshape_dateable (h : Host) (uid : string) (raw : Moments.Raw.t) m :
  Moments.reshape h uid raw = Returned (Some m) → dateable h m.
Proof.
  unfold Moments.reshape.
  destruct (negb (truthy _)); [done|].
  destruct (truthy (Moments.parseCreateTime h raw)) eqn:Htime; simpl.
  - destruct (toISOString h _) as [s|e] eqn:Hiso; simpl; [|done].
    intros [= <-] now. unfold Locket.dateStr; simpl.
    destruct (truthy s); [by eexists|]. rewrite Htime, Hiso. by eexists.
  - intros [= <-] now. unfold Locket.dateStr; simpl.
    rewrite Htime. by eexists.
Qed.

Lemma fetchLocketMoments_listing (h : Host) (reply : Moments.Reply)
    (uid : string) (listing : list Moments.LocketMoment) :
  Moments.fetchLocketMoments h reply uid = Returned listing →
  Forall (λ m, Locket.hasImage m = true ∧ dateable h m) listing.
Proof.
  unfold Moments.fetchLocketMoments.
  destruct reply as [msg|[entries|]]; [done| |by intros [= <-]].
  destruct (Js.mapM _ entries) as [mapped|e] eqn:Hmap; simpl; [|done].
  intros [= <-]. apply sort_Forall, Forall_forall. intros m Hm.
  apply list_elem_of_In, filter_In in Hm as [Hm Himg].
  apply list_elem_of_In, list_elem_of_omap in Hm as (o & Ho & ->).
  split; [by rewrite hasImage_agree|].
  apply mapM_Returned in Hmap.
  apply list_elem_of_lookup in Ho as [i Hi].
  destruct (Forall2_lookup_r _ _ _ _ _ Hmap Hi) as (raw & _ & Hraw).
  by eapply reshape_dateable.
Qed.

(** What the moments route hands out as a listing came out of
    [fetchLocketMoments]. *)
Lemma listingFor_listing (h : Host) (locket : string → Moments.Reply)
    (req : Locket.Request) (listing : list Moments.LocketMoment) :
  listingFor h locket req = Some listing →
  Forall (λ m, Locket.hasImage m = true ∧ dateable h m) listing
  ∧ Locket.ownMomentsApi h locket (idToken req) (localId req)
    = Returned {| Moments.success := true; Moments.data := Some listing;
                  Moments.total := Some (length listing);
                  Moments.message := None |}.
Proof.
  unfold listingFor, Locket.ownMomentsApi, Moments.handler. simpl.
  destruct (negb (truthy (Some (idToken req)))
            || negb (truthy (Some (localId req)))); [done|].
  simpl.
  destruct (Moments.fetchLocketMoments h _ _) as [l|e] eqn:Hfetch; simpl.
  - intros [= <-]. split; [by eapply fetchLocketMoments_listing|done].
  - by destruct (_ || _).
Qed.

End moments_listing.

(** ** pages/api/locket/reset.ts *)
Section reset.
Import Db Spec Locket.

Lemma filter_all {A} (f : A → bool) (l : list A) :
  Forall (λ x, f x = true) l → List.filter f l = l.
Proof.
  induction 1 as [|x l Hx _ IH]; simpl; [done|]. by rewrite Hx, IH.
Qed.

Lemma reset_convertAll (h : Host) (now uid : string)
    (moments : list Moments.LocketMoment) :
  Forall (dateable h) moments →
  ∀ n, ∃ new,
    Reset.convertAll h now uid n moments
    = Returned (new, n + Z.of_nat (length moments))
    ∧ length new = length moments
    ∧ slug <$> new = slugOf <$> moments
    ∧ id <$> new = seqZ n (Z.of_nat (length moments)).
Proof.
  induction 1 as [|m ms Hm _ IH]; intros n; simpl.
  - exists []. by rewrite Z.add_0_r.
  - destruct (IH (n + 1)) as (new & Hall & Hlen & Hslugs & Hids).
    destruct (Hm now) as [s Hs]. unfold Reset.convert.
    rewrite Hs. simpl. rewrite Hall. simpl.
    eexists. split.
    { unfold mret, outcome_ret. f_equal. f_equal. lia. }
    split; [simpl; by rewrite Hlen|].
    split; [by rewrite !fmap_cons, Hslugs|].
    rewrite fmap_cons, Hids. cbn [id length].
    replace (Z.of_nat (S (length ms))) with (Z.succ (Z.of_nat (length ms)))
      by lia.
    rewrite (seqZ_cons n) by lia. do 2 f_equal; lia.
Qed.

(** C1. When the moments route returns a listing to a reset POST that
    carries credentials, the reset answers 200 and writes a collection
    built from the listing alone: one record per moment, in the order of
    the listing, with the moment's slug and the ids 1, 2, ... The record
    count is the size of the listing, and nothing of the file found
    before is in the file written. *)
Theorem reset_replaces_collection
    (h : Host) (locket : string → Moments.Reply) (now : string)
    (req : Request) (file : DbFile) (listing : list Moments.LocketMoment) :
  method req = "POST" → hasCredentials req →
  listingFor h locket req = Some listing →
  ∃ db',
    Reset.handler h now (ownMomentsApi h locket) req file
    = ({| status := 200;
          body := {| success := true;
                     syncedCount := Some (length listing);
                     skippedCount := None;
                     message :=
                       Some ("Đã reset và đồng bộ lại " +:+
                             pretty (length listing) +:+
                             " ảnh/video từ Locket") |} |},
       Stored db')
    ∧ length (images db') = length listing
    ∧ slug <$> images db' = slugOf <$> listing
    ∧ id <$> images db' = seqZ 1 (Z.of_nat (length listing))
    ∧ nextId db' = 1 + Z.of_nat (length listing)
    ∧ (∀ file2,
         (Reset.handler h now (ownMomentsApi h locket) req file2).2
         = Stored db').
Proof.
  intros Hpost [Htok Huid] Hlisting.
  destruct (listingFor_listing h locket req listing Hlisting)
    as [Hall Hapi].
  assert (Forall (λ m, hasImage m = true) listing) as Himg.
  { eapply Forall_impl; [exact Hall|]. by intros m [? _]. }
  assert (Forall (dateable h) listing) as Hdate.
  { eapply Forall_impl; [exact Hall|]. by intros m [_ ?]. }
  destruct (reset_convertAll h now (localId req) listing Hdate 1)
    as (new & Hconv & Hlen & Hslugs & Hids).
  exists {| images := new; nextId := 1 + Z.of_nat (length listing) |}.
  assert (∀ file2,
            Reset.handler h now (ownMomentsApi h locket) req file2
            = ({| status := 200;
                  body := {| success := true;
                             syncedCount := Some (length listing);
                             skippedCount := None;
                             message :=
                               Some ("Đã reset và đồng bộ lại " +:+
                                     pretty (length listing) +:+
                                     " ảnh/video từ Locket") |} |},
               Stored {| images := new;
                         nextId := 1 + Z.of_nat (length listing) |}))
    as Hrun.
  { intros file2. unfold Reset.handler. rewrite Hpost, Htok, Huid.
    cbn [negb orb String.eqb Ascii.eqb Bool.eqb].
    change (default "" (or (body_token req) (x_locket_token req)))
      with (idToken req).
    change (default "" (or (body_localId req) (x_locket_uid req)))
      with (localId req).
    rewrite Hapi. cbn [mbind outcome_bind Moments.success Moments.data
                       negb orb default from_option Datatypes.id].
    rewrite bool_decide_true by eauto. cbn [negb].
    rewrite (filter_all _ _ Himg), Hconv. simpl. by rewrite Hlen. }
  split; [apply Hrun|]. simpl. repeat split; try done.
  intros file2. by rewrite Hrun.
Qed.

Lemma reset_replaces_collection_witness :
  ∃ db',
    Reset.handler Sample.host "2024-06-01T10:00:00.000Z"
      (ownMomentsApi Sample.host Sample.locket) Sample.signedIn
      (Stored Sample.db)
    = ({| status := 200;
          body := {| success := true;
                     syncedCount := Some (length Sample.listing);
                     skippedCount := None;
                     message :=
                       Some ("Đã reset và đồng bộ lại " +:+
                             pretty (length Sample.listing) +:+
                             " ảnh/video từ Locket") |} |},
       Stored db')
    ∧ length (images db') = length Sample.listing
    ∧ slug <$> images db' = slugOf <$> Sample.listing
    ∧ id <$> images db' = seqZ 1 (Z.of_nat (length Sample.listing))
    ∧ nextId db' = 1 + Z.of_nat (length Sample.listing)
    ∧ (∀ file2,
         (Reset.handler Sample.host "2024-06-01T10:00:00.000Z"
            (ownMomentsApi Sample.host Sample.locket) Sample.signedIn
            file2).2
         = Stored db').
Proof.
  apply reset_replaces_collection.
  - reflexivity.
  - split; reflexivity.
  - vm_compute. reflexivity.
Defined.

Example sample_listing :
  Moments.id <$> Sample.listing = ["m3"; "m1"]
  ∧ slugOf <$> Sample.listing = ["locket-m3"; "locket-m1"].
Proof. split; vm_compute; reflexivity. Qed.

End reset.

(** ** pages/api/locket/sync.ts *)
Section sync.
Import Db Spec Locket.

(** The records among the results of the [map]: [.filter(Boolean)]. *)
Local Abbreviation kept out := (omap (λ r : option ImageData, r) out).

Lemma sync_convert_skip (h : Host) (now uid : string) (n : nat)
    (c : Sync.Counters) (m : Moments.LocketMoment) :
  slugOf m ∈ Sync.existingSlugs c →
  Sync.convert h now uid n c m
  = Returned (None, {| Sync.existingSlugs := Sync.existingSlugs c;
                       Sync.syncedCount := Sync.syncedCount c;
                       Sync.skippedCount := S (Sync.skippedCount c);
                       Sync.nextId := Sync.nextId c |}).
Proof. intros Hin. unfold Sync.convert. by rewrite bool_decide_true. Qed.

Lemma sync_convert_new (h : Host) (now uid : string) (n : nat)
    (c : Sync.Counters) (m : Moments.LocketMoment) r c' :
  slugOf m ∉ Sync.existingSlugs c →
  Sync.convert h now uid n c m = Returned (r, c') →
  ∃ x, r = Some x ∧ slug x = slugOf m ∧ id x = Sync.nextId c
       ∧ order_index x = Z.of_nat (n + S (Sync.syncedCount c))
       ∧ Sync.existingSlugs c' = {[ slugOf m ]} ∪ Sync.existingSlugs c
       ∧ Sync.syncedCount c' = S (Sync.syncedCount c)
       ∧ Sync.skippedCount c' = Sync.skippedCount c
       ∧ Sync.nextId c' = Sync.nextId c + 1.
Proof.
  intros Hnotin. unfold Sync.convert. rewrite bool_decide_false by done.
  destruct (dateStr h now m) as [s|e]; simpl; [|done].
  intros [= <- <-]. eexists. by repeat split.
Qed.

(** What the [map] leaves behind: the set of slugs grows by the slugs of
    the records made, which are new to the set and distinct; every moment
    gone through has its slug in the set; ids are handed out in
    sequence. *)
Lemma sync_convertAll_inv (h : Host) (now uid : string) (n : nat)
    (moments : list Moments.LocketMoment) :
  ∀ c out c',
    Sync.convertAll h now uid n c moments = Returned (out, c') →
    Sync.existingSlugs c'
    = list_to_set (slug <$> kept out) ∪ Sync.existingSlugs c
    ∧ NoDup (slug <$> kept out)
    ∧ (∀ s, s ∈ slug <$> kept out → s ∉ Sync.existingSlugs c)
    ∧ (∀ m, m ∈ moments → slugOf m ∈ Sync.existingSlugs c')
    ∧ (∀ r, r ∈ kept out → ∃ m, m ∈ moments ∧ slug r = slugOf m)
    ∧ id <$> kept out = seqZ (Sync.nextId c) (Z.of_nat (length (kept out)))
    ∧ Sync.nextId c' = Sync.nextId c + Z.of_nat (length (kept out))
    ∧ Sync.syncedCount c' = (Sync.syncedCount c + length (kept out))%nat.
Proof.
  induction moments as [|m ms IH]; intros c out c'; simpl.
  - intros [= <- <-]. simpl. split_and!; try done.
    + set_solver.
    + constructor.
    + set_solver.
    + set_solver.
    + set_solver.
    + lia.
  - destruct (Sync.convert h now uid n c m) as [[r c1]|e] eqn:Hm;
      simpl; [|done].
    destruct (Sync.convertAll h now uid n c1 ms) as [[rs c2]|e] eqn:Hms;
      simpl; [|done].
    intros [= <- <-].
    destruct (IH _ _ _ Hms)
      as (Hset & Hnd & Hfresh & Hseen & Hfrom & Hids & Hnext & Hcount).
    destruct (decide (slugOf m ∈ Sync.existingSlugs c)) as [Hin|Hnotin].
    + rewrite (sync_convert_skip h now uid n c m Hin) in Hm.
      injection Hm as <- <-. simpl in *. split_and!; try done.
      * intros m' [->|Hm']%elem_of_cons; [|by apply Hseen].
        rewrite Hset. set_solver.
      * intros r Hr. destruct (Hfrom r Hr) as (m' & Hm' & Hslug).
        exists m'. split; [by apply list_elem_of_further|done].
    + destruct (sync_convert_new h now uid n c m r c1 Hnotin Hm)
        as (x & -> & Hslug & Hid & _ & Hset1 & Hcount1 & _ & Hnext1).
      change (kept (Some x :: rs)) with (x :: kept rs).
      rewrite Hset1 in *. split_and!.
      * rewrite Hset, fmap_cons, Hslug. set_solver.
      * rewrite fmap_cons. apply NoDup_cons. split; [|done].
        intros Hx. apply (Hfresh _ Hx). rewrite Hslug. set_solver.
      * intros s. rewrite fmap_cons, Hslug.
        intros [->|Hs]%elem_of_cons; [done|].
        specialize (Hfresh s Hs). set_solver.
      * intros m' [->|Hm']%elem_of_cons; [|by apply Hseen].
        rewrite Hset. set_solver.
      * intros r [->|Hr]%elem_of_cons.
        -- exists m. split; [apply list_elem_of_here|done].
        -- destruct (Hfrom r Hr) as (m' & Hm' & Hs).
           exists m'. split; [by apply list_elem_of_further|done].
      * rewrite fmap_cons, Hids, Hid, Hnext1. cbn [length].
        replace (Z.of_nat (S (length (kept rs))))
          with (Z.succ (Z.of_nat (length (kept rs)))) by lia.
        rewrite (seqZ_cons (Sync.nextId c)) by lia. do 2 f_equal; lia.
      * rewrite Hnext, Hnext1. cbn [length]. lia.
      * rewrite Hcount, Hcount1. cbn [length]. lia.
Qed.

(** When every moment is already known, the [map] makes no record. *)
Lemma sync_convertAll_all_known (h : Host) (now uid : string) (n : nat)
    (moments : list Moments.LocketMoment) :
  ∀ c, (∀ m, m ∈ moments → slugOf m ∈ Sync.existingSlugs c) →
       ∃ c', Sync.convertAll h now uid n c moments
             = Returned (replicate (length moments) None, c')
             ∧ Sync.skippedCount c'
               = (Sync.skippedCount c + length moments)%nat.
Proof.
  induction moments as [|m ms IH]; intros c Hknown; simpl.
  - exists c. split; [done|lia].
  - rewrite sync_convert_skip by (apply Hknown, list_elem_of_here). simpl.
    edestruct IH as (c' & -> & Hskipped).
    { intros m' Hm'. simpl. by apply Hknown, list_elem_of_further. }
    exists c'. split; [done|]. rewrite Hskipped. simpl. lia.
Qed.

Lemma kept_replicate_None (k : nat) :
  kept (replicate k (@None ImageData)) = [].
Proof. induction k as [|k IH]; simpl; done. Qed.

(** When every creation date can be computed, the [map] does not throw. *)
Lemma sync_convertAll_total (h : Host) (now uid : string) (n : nat)
    (moments : list Moments.LocketMoment) :
  Forall (dateable h) moments →
  ∀ c, ∃ out c', Sync.convertAll h now uid n c moments = Returned (out, c').
Proof.
  induction 1 as [|m ms Hm _ IH]; intros c; simpl; [by eexists _, _|].
  unfold Sync.convert. destruct (Hm now) as [s Hs].
  case_bool_decide; simpl.
  - edestruct IH as (out & c' & ->). simpl. by eexists _, _.
  - rewrite Hs. simpl. edestruct IH as (out & c' & ->). simpl.
    by eexists _, _.
Qed.

Lemma load_storedImages (file : DbFile) :
  Sync.load file = (storedImages file, (Sync.load file).2).
Proof. by destruct file. Qed.

(** The handler, for a POST with credentials that the moments API
    answers with a listing, in terms of its [map]. *)
Lemma sync_handler_run (h : Host) (now : string) (api : MomentsApi)
    (req : Request) (file : DbFile) (result : Moments.Body)
    (listing : list Moments.LocketMoment) :
  method req = "POST" → hasCredentials req →
  api (idToken req) (localId req) = Returned result →
  Moments.success result = true → Moments.data result = Some listing →
  Sync.handler h now api req file
  = match Sync.convertAll h now (localId req) (length (storedImages file))
            (syncStart file) (List.filter hasImage listing) with
    | Thrown e => (failure 500 (or (messageOf e) "Lỗi khi đồng bộ ảnh"), file)
    | Returned (out, final) =>
        if (length (kept out) =? 0)%nat
        then ({| status := 200;
                 body :=
                   {| success := true; syncedCount := Some 0%nat;
                      skippedCount := Some (Sync.skippedCount final);
                      message :=
                        Some (if (0 <? Sync.skippedCount final)%nat
                              then "Tất cả " +:+
                                   pretty (Sync.skippedCount final) +:+
                                   " ảnh đã được đồng bộ trước đó"
                              else "Không có ảnh mới để đồng bộ") |} |},
              file)
        else ({| status := 200;
                 body :=
                   {| success := true;
                      syncedCount := Some (length (kept out));
                      skippedCount := Some (Sync.skippedCount final);
                      message :=
                        Some ("Đã đồng bộ " +:+ pretty (length (kept out))
                              +:+ " ảnh cá nhân vào gallery") |} |},
              Stored {| images := storedImages file ++ kept out;
                        nextId := Sync.nextId final |})
    end.
Proof.
  intros Hpost [Htok Huid] Hapi Hsuccess Hdata.
  unfold Sync.handler. rewrite Hpost, Htok, Huid.
  cbn [negb orb String.eqb Ascii.eqb Bool.eqb].
  change (default "" (or (body_token req) (x_locket_token req)))
    with (idToken req).
  change (default "" (or (body_localId req) (x_locket_uid req)))
    with (localId req).
  rewrite Hapi. cbn [mbind outcome_bind].
  rewrite Hsuccess, Hdata, bool_decide_true by eauto.
  cbn [negb orb default from_option Datatypes.id].
  rewrite (load_storedImages file).
  change {| Sync.existingSlugs := list_to_set (slug <$> storedImages file);
            Sync.syncedCount := 0; Sync.skippedCount := 0;
            Sync.nextId := (Sync.load file).2 |} with (syncStart file).
  destruct (Sync.convertAll _ _ _ _ _ _) as [[out final]|e]; simpl; [|done].
  by destruct (length (kept out) =? 0)%nat.
Qed.

(** A run in which every moment of the listing is already stored. *)
Lemma sync_rerun (h : Host) (now : string) (api : MomentsApi)
    (req : Request) (file : DbFile) (result : Moments.Body)
    (listing : list Moments.LocketMoment) :
  method req = "POST" → hasCredentials req →
  api (idToken req) (localId req) = Returned result →
  Moments.success result = true → Moments.data result = Some listing →
  (∀ m, m ∈ List.filter hasImage listing → slugOf m ∈ slugs file) →
  ∃ resp, Sync.handler h now api req file = (resp, file)
          ∧ status resp = 200
          ∧ success (body resp) = true
          ∧ syncedCount (body resp) = Some 0%nat.
Proof.
  intros Hpost Hcred Hapi Hsuccess Hdata Hknown.
  rewrite (sync_handler_run h now api req file result listing) by done.
  edestruct (sync_convertAll_all_known h now (localId req)
               (length (storedImages file)) (List.filter hasImage listing)
               (syncStart file)) as (c' & -> & _).
  { intros m Hm. simpl. rewrite elem_of_list_to_set. by apply Hknown. }
  rewrite kept_replicate_None. simpl. by eexists.
Qed.

(** A run whose [map] went through: what it answers and leaves. *)
Lemma sync_run (h : Host) (now : string) (api : MomentsApi)
    (req : Request) (file : DbFile) (result : Moments.Body)
    (listing : list Moments.LocketMoment) out final :
  method req = "POST" → hasCredentials req →
  api (idToken req) (localId req) = Returned result →
  Moments.success result = true → Moments.data result = Some listing →
  Sync.convertAll h now (localId req) (length (storedImages file))
    (syncStart file) (List.filter hasImage listing) = Returned (out, final) →
  ∃ resp file',
    Sync.handler h now api req file = (resp, file')
    ∧ status resp = 200
    ∧ success (body resp) = true
    ∧ syncedCount (body resp) = Some (length (kept out))
    ∧ storedImages file' = storedImages file ++ kept out
    ∧ (kept out = [] → file' = file)
    ∧ (kept out ≠ [] → ∃ db', file' = Stored db'
                              ∧ nextId db' = Sync.nextId final).
Proof.
  intros Hpost Hcred Hapi Hsuccess Hdata Hconv.
  rewrite (sync_handler_run h now api req file result listing) by done.
  rewrite Hconv. destruct (kept out) as [|x new] eqn:Hkept; simpl.
  - eexists _, _. split; [done|]. rewrite app_nil_r. by repeat split.
  - eexists _, _. split; [done|]. repeat split; try done. by eexists.
Qed.

(** C2, as the code has it. For a sync POST with credentials to which
    the moments route returns a listing, in any prior state of the file:
    the run answers 200 and appends records whose slugs are distinct from
    each other and from every slug already stored, so a file with
    pairwise distinct slugs is left with pairwise distinct slugs; every
    moment of the listing then has its slug in the file; and a second
    run with the same listing, at any later time, answers 200 with a
    synced count of zero and leaves the file as the first run left it. *)
Theorem sync_adds_only_new_slugs
    (h : Host) (locket : string → Moments.Reply) (now now' : string)
    (req : Request) (file : DbFile) (listing : list Moments.LocketMoment) :
  method req = "POST" → hasCredentials req →
  listingFor h locket req = Some listing →
  ∃ resp file' new,
    Sync.handler h now (ownMomentsApi h locket) req file = (resp, file')
    ∧ status resp = 200
    ∧ syncedCount (body resp) = Some (length new)
    ∧ storedImages file' = storedImages file ++ new
    ∧ NoDup (slug <$> new)
    ∧ (∀ s, s ∈ slug <$> new → s ∉ slugs file)
    ∧ (NoDup (slugs file) → NoDup (slugs file'))
    ∧ (∀ m, m ∈ listing → slugOf m ∈ slugs file')
    ∧ ∃ resp2,
        Sync.handler h now' (ownMomentsApi h locket) req file'
        = (resp2, file')
        ∧ status resp2 = 200
        ∧ syncedCount (body resp2) = Some 0%nat.
Proof.
  intros Hpost Hcred Hlisting.
  destruct (listingFor_listing h locket req listing Hlisting)
    as [Hall Hapi].
  assert (List.filter hasImage listing = listing) as Hfilter.
  { apply filter_all. eapply Forall_impl; [exact Hall|]. by intros m [? _]. }
  assert (Forall (dateable h) listing) as Hdate.
  { eapply Forall_impl; [exact Hall|]. by intros m [_ ?]. }
  destruct (sync_convertAll_total h now (localId req)
              (length (storedImages file)) listing Hdate (syncStart file))
    as (out & final & Hconv).
  destruct (sync_convertAll_inv _ _ _ _ _ _ _ _ Hconv)
    as (Hset & Hnd & Hfresh & Hseen & _).
  rewrite <-Hfilter in Hconv.
  destruct (sync_run h now _ req file _ listing out final
              Hpost Hcred Hapi eq_refl eq_refl Hconv)
    as (resp & file' & Hrun & Hstatus & _ & Hcount & Hstored & _).
  assert (∀ m, m ∈ listing → slugOf m ∈ slugs file') as Hin.
  { intros m Hm. unfold slugs. rewrite Hstored, fmap_app, elem_of_app.
    specialize (Hseen m Hm). rewrite Hset in Hseen. simpl in Hseen.
    rewrite elem_of_union, !elem_of_list_to_set in Hseen. tauto. }
  exists resp, file', (kept out). split_and!; try done.
  - intros s Hs Hin'. apply (Hfresh s Hs). simpl.
    by rewrite elem_of_list_to_set.
  - intros Hnd'. unfold slugs. rewrite Hstored, fmap_app.
    apply NoDup_app. split; [done|]. split; [|done].
    intros s Hs Hs'. apply (Hfresh s Hs'). simpl.
    by rewrite elem_of_list_to_set.
  - destruct (sync_rerun h now' _ req file' _ listing
                Hpost Hcred Hapi eq_refl eq_refl)
      as (resp2 & Hrun2 & Hstatus2 & _ & Hcount2).
    { rewrite Hfilter. exact Hin. }
    by exists resp2.
Qed.

Lemma sync_adds_only_new_slugs_witness :
  ∃ resp file' new,
    Sync.handler Sample.host "2024-06-01T10:00:00.000Z"
      (ownMomentsApi Sample.host Sample.locket) Sample.signedIn
      (Stored Sample.db) = (resp, file')
    ∧ status resp = 200
    ∧ syncedCount (body resp) = Some (length new)
    ∧ storedImages file' = images Sample.db ++ new
    ∧ NoDup (slugs file')
    ∧ (∀ m, m ∈ Sample.listing → slugOf m ∈ slugs file')
    ∧ ∃ resp2,
        Sync.handler Sample.host "2024-06-02T08:30:00.000Z"
          (ownMomentsApi Sample.host Sample.locket) Sample.signedIn file'
        = (resp2, file')
        ∧ status resp2 = 200
        ∧ syncedCount (body resp2) = Some 0%nat.
Proof.
  destruct (sync_adds_only_new_slugs Sample.host Sample.locket
              "2024-06-01T10:00:00.000Z" "2024-06-02T08:30:00.000Z"
              Sample.signedIn (Stored Sample.db) Sample.listing)
    as (resp & file' & new & Hrun & Hstatus & Hcount & Hstored & _ & _
        & Hnd & Hin & Hrerun).
  - reflexivity.
  - split; reflexivity.
  - vm_compute. reflexivity.
  - exists resp, file', new. split_and!; try done.
    apply Hnd.
    exact (bool_decide_unpack (NoDup (slugs (Stored Sample.db))) I).
Defined.

(** C2 as stated fails on a file that already has two records of one
    slug, such as the file two uploads of the same picture leave: the
    sync appends its two moments and the duplicate stays. *)
Lemma sync_keeps_stored_duplicates :
  slugs Sample.uploadedTwice = ["desert-sunset"; "desert-sunset"]
  ∧ slugs (Sync.handler Sample.host "2024-06-01T10:05:00.000Z"
             (ownMomentsApi Sample.host Sample.locket) Sample.signedIn
             Sample.uploadedTwice).2
    = ["desert-sunset"; "desert-sunset"; "locket-m3"; "locket-m1"]
  ∧ ¬ NoDup (slugs (Sync.handler Sample.host "2024-06-01T10:05:00.000Z"
                      (ownMomentsApi Sample.host Sample.locket)
                      Sample.signedIn Sample.uploadedTwice).2).
Proof.
  assert (slugs (Sync.handler Sample.host "2024-06-01T10:05:00.000Z"
                   (ownMomentsApi Sample.host Sample.locket)
                   Sample.signedIn Sample.uploadedTwice).2
          = ["desert-sunset"; "desert-sunset"; "locket-m3"; "locket-m1"])
    as Hslugs by (vm_compute; reflexivity).
  split; [vm_compute; reflexivity|]. split; [exact Hslugs|].
  rewrite Hslugs. intros [Hnotin _]%NoDup_cons.
  apply Hnotin, list_elem_of_here.
Qed.

End sync.

(** ** The numbering of records *)
Section numbering.
Import Db Spec Locket.

Local Abbreviation kept out := (omap (λ r : option ImageData, r) out).

Lemma seqZ_StronglySorted (m n : Z) : StronglySorted Z.lt (seqZ m n).
Proof.
  destruct (decide (n ≤ 0)) as [Hn|Hn]; [rewrite seqZ_nil by done; constructor|].
  rewrite <-(Z2Nat.id n) by lia. generalize (Z.to_nat n) as k. clear n Hn.
  intros k. revert m. induction k as [|k IH]; intros m.
  - rewrite seqZ_nil by done. constructor.
  - rewrite seqZ_cons by lia.
    replace (Z.pred (Z.of_nat (S k))) with (Z.of_nat k) by lia.
    constructor; [apply IH|]. apply Forall_seqZ. lia.
Qed.

(** Whatever the request and the moments API, a sync leaves the file
    found, or the records found followed by those its [map] made. *)
Lemma sync_handler_file (h : Host) (now : string) (api : MomentsApi)
    (req : Request) (file : DbFile) :
  (Sync.handler h now api req file).2 = file
  ∨ ∃ uid listing out final,
      Sync.convertAll h now uid (length (storedImages file))
        (syncStart file) listing = Returned (out, final)
      ∧ (Sync.handler h now api req file).2
        = Stored {| images := storedImages file ++ kept out;
                    nextId := Sync.nextId final |}.
Proof.
  unfold Sync.handler.
  destruct (negb (String.eqb (method req) "POST")); [by left|].
  destruct (negb (truthy _) || negb (truthy _)); [by left|].
  destruct (api _ _) as [result|e]; simpl; [|by left].
  destruct (negb (Moments.success result) || _); [by left|].
  rewrite (load_storedImages file).
  change {| Sync.existingSlugs := list_to_set (slug <$> storedImages file);
            Sync.syncedCount := 0; Sync.skippedCount := 0;
            Sync.nextId := (Sync.load file).2 |} with (syncStart file).
  destruct (Sync.convertAll _ _ _ _ _ _) as [[out final]|e] eqn:Hconv;
    simpl; [|by left].
  destruct (length (kept out) =? 0)%nat; [by left|].
  right. by eexists _, _, _, _.
Qed.

Lemma reset_convertAll_ids (h : Host) (now uid : string)
    (moments : list Moments.LocketMoment) :
  ∀ n new n',
    Reset.convertAll h now uid n moments = Returned (new, n') →
    id <$> new = seqZ n (Z.of_nat (length new))
    ∧ n' = n + Z.of_nat (length new).
Proof.
  induction moments as [|m ms IH]; intros n new n'; simpl.
  - intros [= <- <-]. split; [done|]. simpl. lia.
  - unfold Reset.convert. destruct (dateStr h now m) as [s|e]; simpl; [|done].
    destruct (Reset.convertAll h now uid (n + 1) ms) as [[rs k]|e] eqn:Hms;
      simpl; [|done].
    intros [= <- <-]. destruct (IH _ _ _ Hms) as [Hids ->].
    split; [|cbn [length]; lia].
    rewrite fmap_cons, Hids. cbn [id length].
    replace (Z.of_nat (S (length rs))) with (Z.succ (Z.of_nat (length rs)))
      by lia.
    rewrite (seqZ_cons n) by lia. do 2 f_equal; lia.
Qed.

(** Whatever the request and the moments API, a reset leaves the file
    found, or a file of records numbered from 1. *)
Lemma reset_handler_file (h : Host) (now : string) (api : MomentsApi)
    (req : Request) (file : DbFile) :
  (Reset.handler h now api req file).2 = file
  ∨ ∃ new,
      (Reset.handler h now api req file).2
      = Stored {| images := new; nextId := 1 + Z.of_nat (length new) |}
      ∧ id <$> new = seqZ 1 (Z.of_nat (length new)).
Proof.
  unfold Reset.handler.
  destruct (negb (String.eqb (method req) "POST")); [by left|].
  destruct (negb (truthy _) || negb (truthy _)); [by left|].
  destruct (api _ _) as [result|e]; simpl; [|by left].
  destruct (negb (Moments.success result) || _); [by left|].
  destruct (Reset.convertAll _ _ _ _ _) as [[new n]|e] eqn:Hconv;
    simpl; [|by left].
  destruct (reset_convertAll_ids _ _ _ _ _ _ _ Hconv) as [Hids ->].
  right. by exists new.
Qed.

Lemma load_counter (file : DbFile) :
  wellNumbered file → (Sync.load file).2 = counter file.
Proof.
  destruct file as [| | |db]; simpl; try done.
  intros [Hpos _]. unfold Js.or, truthy, truthy_Z.
  destruct (Z.eqb_spec (nextId db) 0); [lia|done].
Qed.

Lemma wellNumbered_append (file : DbFile) (new : list ImageData) (k : Z) :
  wellNumbered file →
  id <$> new = seqZ (counter file) (Z.of_nat (length new)) →
  k = counter file + Z.of_nat (length new) →
  wellNumbered (Stored {| images := storedImages file ++ new; nextId := k |}).
Proof.
  intros Hwn Hids ->.
  assert (1 ≤ counter file ∧ NoDup (id <$> storedImages file)
          ∧ Forall (λ i, 1 ≤ i < counter file) (id <$> storedImages file))
    as (Hpos & Hnd & Hlt).
  { destruct file as [| | |db]; simpl in *; try done.
    split; [done|]. split; constructor. }
  simpl. rewrite fmap_app, Hids. split; [lia|]. split.
  - apply NoDup_app. split; [done|]. split; [|apply NoDup_seqZ].
    intros i Hi Hi'%elem_of_seqZ.
    rewrite Forall_forall in Hlt. specialize (Hlt i Hi). lia.
  - apply Forall_app. split.
    + eapply Forall_impl; [exact Hlt|]. simpl. lia.
    + apply Forall_seqZ. lia.
Qed.

Lemma assigned_append (file : DbFile) (new : list ImageData) (k : Z) :
  drop (length (storedImages file))
       (ids (Stored {| images := storedImages file ++ new; nextId := k |}))
  = id <$> new.
Proof.
  unfold ids. simpl. rewrite fmap_app.
  apply drop_app_length'. by rewrite length_fmap.
Qed.

Lemma assigned_nothing (file : DbFile) :
  drop (length (storedImages file)) (ids file) = [].
Proof. apply drop_ge. unfold ids. by rewrite length_fmap. Qed.

(** Every writer keeps the file well numbered; the writers other than
    reset never lower the counter and give out exactly the ids between
    the counter they find and the counter they leave. *)
Lemma step_numbering (op : Op) (file : DbFile) :
  wellNumbered file →
  wellNumbered (step op file)
  ∧ (isReset op = false →
     counter file ≤ counter (step op file)
     ∧ assigned op file
       = seqZ (counter file) (counter (step op file) - counter file)).
Proof.
  intros Hwn. destruct op as [now data|now i data|i|h now api req|h now api req];
    simpl.
  - (* insert *)
    assert (∃ r, step (Insert now data) file
                 = Stored {| images := storedImages file ++ [r];
                             nextId := counter file + 1 |}
                 ∧ id r = counter file) as (r & Hstep & Hid).
    { destruct file as [| | |db]; simpl in *; try done; by eexists. }
    unfold assigned. simpl in Hstep. rewrite Hstep, assigned_append. simpl.
    split; [apply wellNumbered_append; simpl; rewrite ?Hid; done|].
    intros _. split; [lia|].
    replace (counter file + 1 - counter file) with 1 by lia. by rewrite Hid.
  - (* update *)
    destruct file as [| | |db]; simpl in *; try done.
    { split; [by repeat constructor|done]. }
    unfold fileAfter, updateImage, bind, initDB.
    destruct (findIndex i (images db)) as [[k old]|] eqn:Hfind; simpl.
    + apply list_find_Some in Hfind as (Hk & Hid & _).
      rewrite list_fmap_insert. simpl.
      rewrite list_insert_id by (by rewrite list_lookup_fmap, Hk; simpl; f_equal).
      split; [done|]. intros _. by rewrite Z.sub_diag.
    + split; [done|]. intros _. by rewrite Z.sub_diag.
  - (* delete *)
    destruct file as [| | |db]; simpl in *; try done.
    { split; [by repeat constructor|done]. }
    unfold fileAfter, deleteImage, bind, initDB.
    destruct (findIndex i (images db)) as [[k old]|] eqn:Hfind; simpl.
    + rewrite list_fmap_delete. destruct Hwn as (Hpos & Hnd & Hlt).
      split; [|intros _; by rewrite Z.sub_diag].
      split; [done|]. split; [|by apply Forall_delete].
      eapply sublist_NoDup; [exact Hnd|apply sublist_delete].
    + split; [done|]. intros _. by rewrite Z.sub_diag.
  - (* sync *)
    unfold assigned. simpl.
    destruct (sync_handler_file h now api req file)
      as [->|(uid & listing & out & final & Hconv & ->)].
    + split; [done|]. intros _. rewrite assigned_nothing.
      by rewrite Z.sub_diag.
    + destruct (sync_convertAll_inv _ _ _ _ _ _ _ _ Hconv)
        as (_ & _ & _ & _ & _ & Hids & Hnext & _).
      simpl in Hids, Hnext. rewrite (load_counter file Hwn) in Hids, Hnext.
      rewrite assigned_append. split.
      * by apply wellNumbered_append.
      * intros _. simpl. rewrite Hnext. split; [lia|].
        rewrite Hids. f_equal. lia.
  - (* reset *)
    destruct (reset_handler_file h now api req file)
      as [->|(new & -> & Hids)].
    + split; [done|]. intros [=].
    + split; [|intros [=]].
      apply (wellNumbered_append NoFile new); [done|done|simpl; lia].
Qed.

(** The same along a sequence of writers. *)
Lemma run_numbering (ops : list Op) :
  ∀ file, wellNumbered file →
    wellNumbered (run ops file).1
    ∧ (forallb (λ op, negb (isReset op)) ops = true →
       counter file ≤ counter (run ops file).1
       ∧ (run ops file).2
         = seqZ (counter file) (counter (run ops file).1 - counter file)).
Proof.
  induction ops as [|op ops IH]; intros file Hwn; simpl.
  - split; [done|]. intros _. by rewrite Z.sub_diag.
  - destruct (step_numbering op file Hwn) as [Hwn' Hstep].
    destruct (IH _ Hwn') as [Hwn'' Hrun].
    destruct (run ops (step op file)) as [file' log] eqn:Hrest.
    simpl in *. split; [done|].
    intros [Hop%negb_true_iff Hops]%andb_prop.
    destruct (Hstep Hop) as [Hle ->].
    destruct (Hrun Hops) as [Hle' ->]. split; [lia|].
    replace (counter file' - counter file)
      with ((counter (step op file) - counter file)
            + (counter file' - counter (step op file))) by lia.
    rewrite seqZ_app by lia. do 2 f_equal. lia.
Qed.

(** X8. From a gallery with no file yet, whatever writers run (reset
    included), ids identify the records of the file: the premise of the
    statements on update and delete above holds in every file the
    application writes. *)
Lemma reachable_ids_unique (ops : list Op) :
  NoDup (ids (run ops NoFile).1)
  ∧ Forall (λ i, 1 ≤ i < counter (run ops NoFile).1) (ids (run ops NoFile).1).
Proof.
  destruct (run_numbering ops NoFile I) as [Hwn _].
  destruct (run ops NoFile).1 as [| | |db]; simpl in *; try done.
  - split; constructor.
  - tauto.
Qed.

(** X9. Identifiers are assigned monotonically: over any sequence of
    inserts, updates, deletes and syncs, the ids given out are 1, 2, 3,
    ... in that order, so each is greater than all those given out
    before it, and the counter ends above them all. *)
Lemma ids_assigned_in_sequence (ops : list Op) :
  forallb (λ op, negb (isReset op)) ops = true →
  (run ops NoFile).2 = seqZ 1 (counter (run ops NoFile).1 - 1)
  ∧ StronglySorted Z.lt (run ops NoFile).2
  ∧ Forall (λ i, i < counter (run ops NoFile).1) (run ops NoFile).2.
Proof.
  intros Hops. destruct (run_numbering ops NoFile I) as [_ Hrun].
  destruct (Hrun Hops) as [Hle Hlog]. simpl in Hlog. rewrite Hlog.
  split; [done|]. split; [apply seqZ_StronglySorted|].
  apply Forall_seqZ. lia.
Qed.

(** C3, the failing input. Two inserts with one slug (two uploads of
    the same picture) are both stored: the ids are 1 and 2, as the
    numbering promises, but the file holds the slug twice, and a lookup
    by that slug only ever finds the first record. *)
Theorem insert_does_not_check_slug :
  (run [Insert "2024-06-01T10:00:00.000Z" (Sample.image 0 "desert-sunset" 0);
        Insert "2024-06-01T10:01:00.000Z" (Sample.image 0 "desert-sunset" 0)]
       NoFile).2 = [1; 2]
  ∧ slugs (run [Insert "2024-06-01T10:00:00.000Z"
                  (Sample.image 0 "desert-sunset" 0);
                Insert "2024-06-01T10:01:00.000Z"
                  (Sample.image 0 "desert-sunset" 0)] NoFile).1
    = ["desert-sunset"; "desert-sunset"]
  ∧ slugs Sample.uploadedTwice = ["desert-sunset"; "desert-sunset"]
  ∧ ids Sample.uploadedTwice = [1; 2]
  ∧ ¬ NoDup (slugs Sample.uploadedTwice)
  ∧ (∃ r, getImageBySlug "desert-sunset" Sample.uploadedTwice
          = Returned (Some r, Sample.uploadedTwice)
          ∧ id r = 1).
Proof.
  split_and!; try (vm_compute; reflexivity).
  - change (slugs Sample.uploadedTwice)
      with ["desert-sunset"; "desert-sunset"].
    intros [Hnotin _]%NoDup_cons. apply Hnotin, list_elem_of_here.
  - eexists. split; [vm_compute; reflexivity|reflexivity].
Qed.

End numbering.

(** ** lib/db.ts: lookups after writes *)
Section store_round_trips.
Import Db Spec.

Lemma find_id_None (i : Z) (l : list ImageData) :
  i ∉ id <$> l → List.find (λ img, id img =? i) l = None.
Proof.
  induction l as [|x l IH]; simpl; [done|].
  rewrite not_elem_of_cons. intros [Hne Hnotin].
  destruct (Z.eqb_spec (id x) i); [congruence|]. by apply IH.
Qed.

Lemma find_id_Some (l : list ImageData) (r : ImageData) :
  NoDup (id <$> l) → r ∈ l → List.find (λ img, id img =? id r) l = Some r.
Proof.
  induction l as [|x l IH]; simpl.
  - intros _ Hr. by apply elem_of_nil in Hr.
  - rewrite NoDup_cons. intros [Hx Hnd] [->|Hr]%elem_of_cons.
    + by rewrite Z.eqb_refl.
    + destruct (Z.eqb_spec (id x) (id r)) as [Heq|_]; [|by apply IH].
      destruct Hx. rewrite Heq. apply list_elem_of_fmap. eauto.
Qed.

Lemma find_id_other (l : list ImageData) (j k : nat) (r r' : ImageData) i :
  l !! k = Some r → id r' = id r → i ≠ id r →
  List.find (λ img, id img =? i) (<[k := r']> l)
  = List.find (λ img, id img =? i) l.
Proof.
  revert k. induction l as [|x l IH]; intros [|k]; simpl; try done.
  - intros [= ->] Hid Hne.
    destruct (Z.eqb_spec (id r') i); [congruence|].
    destruct (Z.eqb_spec (id r) i); [congruence|done].
  - intros Hk Hid Hne. destruct (id x =? i); [done|]. by eapply IH.
Qed.

Lemma find_id_delete (l : list ImageData) (k : nat) (r : ImageData) i :
  l !! k = Some r → i ≠ id r →
  List.find (λ img, id img =? i) (delete k l)
  = List.find (λ img, id img =? i) l.
Proof.
  revert k. induction l as [|x l IH]; intros [|k]; simpl; try done.
  - intros [= ->] Hne. destruct (Z.eqb_spec (id r) i); [congruence|done].
  - intros Hk Hne. destruct (id x =? i); [done|]. by eapply IH.
Qed.

Lemma find_app_l {A} (p : A → bool) (l1 l2 : list A) x :
  List.find p l1 = Some x → List.find p (l1 ++ l2) = Some x.
Proof.
  induction l1 as [|y l1 IH]; simpl; [done|]. by destruct (p y).
Qed.

Lemma find_app_r {A} (p : A → bool) (l1 l2 : list A) :
  List.find p l1 = None → List.find p (l1 ++ l2) = List.find p l2.
Proof.
  induction l1 as [|y l1 IH]; simpl; [done|]. by destruct (p y).
Qed.



(** X2. An insert under a slug no stored record has makes lookups by
    that slug return the new record. Under a slug that is taken, lookups
    by the slug return the same stored record as before the insert: the
    new record is stored but cannot be reached by its slug. *)
Theorem createImage_then_getImageBySlug
    (now : string) (data : ImageData) (db : Database) :
  ∃ r db',
    createImage now data (Stored db) = Returned (r, Stored db')
    ∧ r ∈ images db'
    ∧ ((∀ x, x ∈ images db → slug x ≠ slug data) →
       getImageBySlug (slug data) (Stored db')
       = Returned (Some r, Stored db'))
    ∧ (∀ old, old ∈ images db → slug old = slug data →
       ∃ first,
         first ∈ images db
         ∧ getImageBySlug (slug data) (Stored db)
           = Returned (Some first, Stored db)
         ∧ getImageBySlug (slug data) (Stored db')
           = Returned (Some first, Stored db')).
Proof.
  eexists _, _. split; [unfold createImage, bind; simpl; reflexivity|].
  cbn [images]. split; [|split].
  - rewrite elem_of_app. right. apply list_elem_of_here.
  - intros Hfree. unfold getImageBySlug, bind. simpl.
    rewrite find_app_r by (by apply find_slug_None).
    simpl. by rewrite String.eqb_refl.
  - intros old Hold Hslug.
    destruct (find_slug_Some (slug data) (images db) old Hold Hslug)
      as (first & Hfind & Hfirst & _).
    exists first. split; [done|].
    unfold getImageBySlug, bind. simpl.
    by rewrite (find_app_l _ _ _ _ Hfind), Hfind.
Qed.

(** X3. With ids identifying records, after an update a lookup by the
    id returns the updated record, and lookups by any other id return
    what they returned before. *)
Theorem updateImage_then_getImageById
    (db : Database) (r : ImageData) (now : string) (data : Partial.t) :
  r ∈ images db → NoDup (id <$> images db) →
  ∃ r' db',
    updateImage now (id r) data (Stored db) = Returned (Some r', Stored db')
    ∧ getImageById (id r) (Stored db') = Returned (Some r', Stored db')
    ∧ (∀ j x, j ≠ id r →
         getImageById j (Stored db) = Returned (x, Stored db) →
         getImageById j (Stored db') = Returned (x, Stored db'))
    ∧ length (images db') = length (images db)
    ∧ id <$> images db' = id <$> images db.
Proof.
  intros Hr Hnd.
  destruct (findIndex_elem_of _ _ Hr Hnd) as (k & Hfind & Hk).
  eexists _, _. split.
  { unfold updateImage, bind, initDB. rewrite Hfind. reflexivity. }
  cbn [images]. set (r' := withIdAndStamp (id r) now (spread r data)).
  assert (id <$> <[k := r']> (images db) = id <$> images db) as Hids.
  { rewrite list_fmap_insert. apply list_insert_id.
    by rewrite list_lookup_fmap, Hk. }
  split_and!.
  - unfold getImageById, bind. simpl.
    rewrite (find_id_Some _ r'); [done| |].
    + by rewrite Hids.
    + eapply list_elem_of_lookup_2, list_lookup_insert_eq.
      by eapply lookup_lt_Some.
  - intros j x Hj. unfold getImageById, bind. simpl.
    rewrite (find_id_other _ k k r r' j) by done. by intros [= <-].
  - by rewrite length_insert.
  - done.
Qed.

Lemma updateImage_then_getImageById_witness :
  ∃ r' db',
    updateImage "2024-06-01T10:00:00.000Z" 2 Sample.rename
      (Stored Sample.db) = Returned (Some r', Stored db')
    ∧ getImageById 2 (Stored db') = Returned (Some r', Stored db')
    ∧ (∀ j x, j ≠ 2 →
         getImageById j (Stored Sample.db) = Returned (x, Stored Sample.db) →
         getImageById j (Stored db') = Returned (x, Stored db'))
    ∧ length (images db') = 3%nat
    ∧ id <$> images db' = [1; 2; 3].
Proof.
  apply (updateImage_then_getImageById
           Sample.db (Sample.image 2 "stone" 1)).
  - apply list_elem_of_further, list_elem_of_here.
  - exact (bool_decide_unpack (NoDup (id <$> images Sample.db)) I).
Defined.

(** X4. With ids identifying records, after a delete a lookup by the id
    returns null, lookups by any other id return what they returned
    before, the records left keep their order, and the counter is not
    moved back. *)
Theorem deleteImage_then_getImageById (db : Database) (r : ImageData) :
  r ∈ images db → NoDup (id <$> images db) →
  ∃ db' k,
    deleteImage (id r) (Stored db) = Returned (true, Stored db')
    ∧ getImageById (id r) (Stored db') = Returned (None, Stored db')
    ∧ (∀ j x, j ≠ id r →
         getImageById j (Stored db) = Returned (x, Stored db) →
         getImageById j (Stored db') = Returned (x, Stored db'))
    ∧ images db !! k = Some r
    ∧ images db' = take k (images db) ++ drop (S k) (images db)
    ∧ S (length (images db')) = length (images db)
    ∧ nextId db' = nextId db.
Proof.
  intros Hr Hnd.
  destruct (findIndex_elem_of _ _ Hr Hnd) as (k & Hfind & Hk).
  pose proof (NoDup_fmap_1 id _ Hnd) as Hnd'.
  eexists _, k. split.
  { unfold deleteImage, bind, initDB. rewrite Hfind. reflexivity. }
  cbn [images nextId]. split_and!; try done.
  - unfold getImageById, bind. simpl. rewrite find_id_None; [done|].
    intros (x & Hid & Hx)%list_elem_of_fmap.
    apply (elem_of_delete_NoDup _ k r) in Hx as [Hx Hne]; [|done..].
    apply Hne. symmetry. by eapply (fmap_NoDup_inj id).
  - intros j x Hj. unfold getImageById, bind. simpl.
    rewrite (find_id_delete _ k r j) by done. by intros [= <-].
  - apply delete_take_drop.
  - rewrite length_delete by eauto.
    apply lookup_lt_Some in Hk. lia.
Qed.

Lemma deleteImage_then_getImageById_witness :
  ∃ db' k,
    deleteImage 2 (Stored Sample.db) = Returned (true, Stored db')
    ∧ getImageById 2 (Stored db') = Returned (None, Stored db')
    ∧ (∀ j x, j ≠ 2 →
         getImageById j (Stored Sample.db) = Returned (x, Stored Sample.db) →
         getImageById j (Stored db') = Returned (x, Stored db'))
    ∧ images Sample.db !! k = Some (Sample.image 2 "stone" 1)
    ∧ images db' = take k (images Sample.db) ++ drop (S k) (images Sample.db)
    ∧ S (length (images db')) = 3%nat
    ∧ nextId db' = 4.
Proof.
  apply (deleteImage_then_getImageById
           Sample.db (Sample.image 2 "stone" 1)).
  - apply list_elem_of_further, list_elem_of_here.
  - exact (bool_decide_unpack (NoDup (id <$> images Sample.db)) I).
Defined.

(** X5. For an id that no stored record has, a lookup returns null, an
    update returns null and a delete returns false, and each leaves the
    file exactly as it was. *)
Theorem unknown_id_changes_nothing
    (db : Database) (i : Z) (now : string) (data : Partial.t) :
  i ∉ id <$> images db →
  getImageById i (Stored db) = Returned (None, Stored db)
  ∧ updateImage now i data (Stored db) = Returned (None, Stored db)
  ∧ deleteImage i (Stored db) = Returned (false, Stored db).
Proof.
  intros Hi. unfold getImageById, updateImage, deleteImage, bind. simpl.
  by rewrite find_id_None, findIndex_None.
Qed.

Lemma unknown_id_changes_nothing_witness :
  getImageById 7 (Stored Sample.db) = Returned (None, Stored Sample.db)
  ∧ updateImage "2024-06-01T10:00:00.000Z" 7 Sample.rename (Stored Sample.db)
    = Returned (None, Stored Sample.db)
  ∧ deleteImage 7 (Stored Sample.db) = Returned (false, Stored Sample.db).
Proof.
  apply unknown_id_changes_nothing. simpl.
  rewrite !not_elem_of_cons. split_and!; try discriminate.
  apply not_elem_of_nil.
Defined.

(** X6. Ids are never reused: in a well-numbered store, the record
    inserted after a delete gets an id above the deleted one and above
    every id the store held. *)
Theorem deleted_id_is_not_reused
    (db : Database) (r : ImageData) (now : string) (data : ImageData) :
  wellNumbered (Stored db) → r ∈ images db →
  ∃ db1 r2 db2,
    deleteImage (id r) (Stored db) = Returned (true, Stored db1)
    ∧ createImage now data (Stored db1) = Returned (r2, Stored db2)
    ∧ id r < id r2
    ∧ Forall (λ i, i < id r2) (id <$> images db)
    ∧ id r ∉ id <$> images db2.
Proof.
  intros (Hpos & Hnd & Hlt) Hr.
  destruct (findIndex_elem_of _ _ Hr Hnd) as (k & Hfind & Hk).
  rewrite Forall_forall in Hlt.
  assert (id r < nextId db) as Hid.
  { apply Hlt, list_elem_of_fmap. eauto. }
  eexists _, _, _. split.
  { unfold deleteImage, bind, initDB. rewrite Hfind. reflexivity. }
  split; [unfold createImage, bind; simpl; reflexivity|].
  cbn [id images nextId]. split_and!; try done.
  - apply Forall_forall. intros i Hi. specialize (Hlt i Hi). lia.
  - rewrite fmap_app, elem_of_app. cbn [fmap list_fmap id].
    intros [Hin|[Heq|[]%elem_of_nil]%elem_of_cons]; [|lia].
    apply list_elem_of_fmap in Hin as (x & Hx & Hin).
    pose proof (NoDup_fmap_1 id _ Hnd) as Hnd'.
    apply (elem_of_delete_NoDup _ k r) in Hin as [Hin Hne]; [|done..].
    apply Hne. by eapply (fmap_NoDup_inj id).
Qed.

Lemma deleted_id_is_not_reused_witness :
  ∃ db1 r2 db2,
    deleteImage 3 (Stored Sample.db) = Returned (true, Stored db1)
    ∧ createImage "2024-06-01T10:00:00.000Z" (Sample.image 0 "sand" 2)
        (Stored db1) = Returned (r2, Stored db2)
    ∧ 3 < id r2
    ∧ Forall (λ i, i < id r2) (id <$> images Sample.db)
    ∧ 3 ∉ id <$> images db2.
Proof.
  apply (deleted_id_is_not_reused Sample.db (Sample.image 3 "clay" 1)).
  - split; [done|]. split.
    + exact (bool_decide_unpack (NoDup (id <$> images Sample.db)) I).
    + repeat constructor; simpl; lia.
  - do 2 apply list_elem_of_further. apply list_elem_of_here.
Defined.

(** X7. The first use of a gallery that has no database file: every
    read answers empty (no records, null, false) and leaves the file
    created with no records and the counter at 1; the first insert gets
    id 1. On a file that does not parse, every operation throws and
    nothing is returned or written. *)
Theorem store_without_file
    (now : string) (data : ImageData) (payload : Partial.t) (s : string)
    (i : Z) :
  getAllImages NoFile = Returned ([], Stored initialData)
  ∧ getImageBySlug s NoFile = Returned (None, Stored initialData)
  ∧ getImageById i NoFile = Returned (None, Stored initialData)
  ∧ updateImage now i payload NoFile = Returned (None, Stored initialData)
  ∧ deleteImage i NoFile = Returned (false, Stored initialData)
  ∧ (∃ r, createImage now data NoFile
          = Returned (r, Stored {| images := [r]; nextId := 2 |})
          ∧ id r = 1)
  ∧ getAllImages Garbled = Thrown SyntaxError
  ∧ getImageBySlug s Garbled = Thrown SyntaxError
  ∧ getImageById i Garbled = Thrown SyntaxError
  ∧ createImage now data Garbled = Thrown SyntaxError
  ∧ updateImage now i payload Garbled = Thrown SyntaxError
  ∧ deleteImage i Garbled = Thrown SyntaxError.
Proof.
  split_and!; try reflexivity.
  eexists. split; [unfold createImage, bind; simpl; reflexivity|done].
Qed.

End store_round_trips.

(** ** Numbering over a run of writers: an instance *)
Section numbering_instance.
Import Db Spec Locket.

Lemma ids_assigned_in_sequence_witness :
  (run [Insert "2024-06-01T10:00:00.000Z" (Sample.image 0 "sand" 0);
        SyncRun Sample.host "2024-06-01T10:05:00.000Z"
          (ownMomentsApi Sample.host Sample.locket) Sample.signedIn;
        Delete 1;
        Insert "2024-06-01T10:10:00.000Z" (Sample.image 0 "sand" 0)]
       NoFile).2 = [1; 2; 3; 4]
  ∧ StronglySorted Z.lt [1; 2; 3; 4].
Proof.
  pose proof (ids_assigned_in_sequence
    [Insert "2024-06-01T10:00:00.000Z" (Sample.image 0 "sand" 0);
     SyncRun Sample.host "2024-06-01T10:05:00.000Z"
       (ownMomentsApi Sample.host Sample.locket) Sample.signedIn;
     Delete 1;
     Insert "2024-06-01T10:10:00.000Z" (Sample.image 0 "sand" 0)]
    eq_refl) as (Hlog & Hsorted & _).
  split; [vm_compute; reflexivity|].
  replace [1; 2; 3; 4] with
    (run [Insert "2024-06-01T10:00:00.000Z" (Sample.image 0 "sand" 0);
          SyncRun Sample.host "2024-06-01T10:05:00.000Z"
            (ownMomentsApi Sample.host Sample.locket) Sample.signedIn;
          Delete 1;
          Insert "2024-06-01T10:10:00.000Z" (Sample.image 0 "sand" 0)]
         NoFile).2 by (vm_compute; reflexivity).
  exact Hsorted.
Defined.

End numbering_instance.

(** ** sync.ts, reset.ts: what a run leaves *)
Section locket_runs.
Import Db Spec Locket.

Local Abbreviation kept out := (omap (λ r : option ImageData, r) out).

(** X10. A sync or a reset that does not answer 200 answers 400, 401,
    405 or 500 with success false and leaves the database file exactly
    as it found it; an answer of 200 has success true. This holds for
    every request, every moments API (also one that throws) and every
    file. *)
Theorem locket_failure_leaves_file
    (h : Host) (now : string) (api : MomentsApi) (req : Request)
    (file : DbFile) :
  let sync := Sync.handler h now api req file in
  let reset := Reset.handler h now api req file in
  (status sync.1 = 200 ∧ success (body sync.1) = true
   ∨ status sync.1 ∈ [400; 401; 405; 500]
     ∧ success (body sync.1) = false ∧ sync.2 = file)
  ∧ (status reset.1 = 200 ∧ success (body reset.1) = true
     ∨ status reset.1 ∈ [400; 401; 405; 500]
       ∧ success (body reset.1) = false ∧ reset.2 = file).
Proof.
  assert (∀ code msg, code ∈ [400; 401; 405; 500] →
            status (failure code msg) ∈ [400; 401; 405; 500]
            ∧ success (body (failure code msg)) = false) as Hfail by done.
  simpl. split.
  - unfold Sync.handler.
    destruct (negb (String.eqb (method req) "POST"));
      [right; split_and!; [set_solver|done..]|].
    destruct (negb (truthy _) || negb (truthy _));
      [right; split_and!; [set_solver|done..]|].
    destruct (api _ _) as [result|e]; simpl;
      [|right; split_and!; [set_solver|done..]].
    destruct (negb (Moments.success result) || _);
      [right; split_and!; [set_solver|done..]|].
    destruct (Sync.load file) as [existing n].
    destruct (Sync.convertAll _ _ _ _ _ _) as [[out final]|e]; simpl;
      [|right; split_and!; [set_solver|done..]].
    destruct (length (kept out) =? 0)%nat; by left.
  - unfold Reset.handler.
    destruct (negb (String.eqb (method req) "POST"));
      [right; split_and!; [set_solver|done..]|].
    destruct (negb (truthy _) || negb (truthy _));
      [right; split_and!; [set_solver|done..]|].
    destruct (api _ _) as [result|e]; simpl;
      [|right; split_and!; [set_solver|done..]].
    destruct (negb (Moments.success result) || _);
      [right; split_and!; [set_solver|done..]|].
    destruct (Reset.convertAll _ _ _ _ _) as [[new n]|e]; simpl;
      [|right; split_and!; [set_solver|done..]].
    by left.
Qed.

(** X11. Whatever request it serves, a sync never removes, reorders or
    alters a stored record: the records found are the first records of
    the file it leaves. *)
Theorem sync_keeps_stored_records
    (h : Host) (now : string) (api : MomentsApi) (req : Request)
    (file : DbFile) :
  storedImages file `prefix_of`
    storedImages (Sync.handler h now api req file).2.
Proof.
  destruct (sync_handler_file h now api req file)
    as [->|(uid & listing & out & final & _ & ->)]; [done|].
  simpl. by apply prefix_app_r.
Qed.

End locket_runs.

(** ** sync.ts, reset.ts: the records a run writes *)
Section locket_records.
Import Db Spec Locket.

Local Abbreviation kept out := (omap (λ r : option ImageData, r) out).

Lemma hasImage_urls (m : Moments.LocketMoment) :
  hasImage m = true →
  Js.or (Moments.imageUrl m) (Moments.thumbnailUrl m) ≠ ""
  ∧ Js.or (Moments.thumbnailUrl m) (Moments.imageUrl m) ≠ "".
Proof.
  unfold hasImage. rewrite truthy_or_string. intros Himg.
  rewrite <-!truthy_string_nonempty, !truthy_or_string.
  by rewrite (orb_comm (truthy (Moments.imageUrl m))).
Qed.

(** What the [map] of a sync makes of moments that have an image: every
    moment is either counted as skipped or turned into a record; the
    records get the order indexes that follow the number of records
    stored, and the constant fields of a Locket record. *)
Lemma sync_convertAll_records (h : Host) (now uid : string) (n : nat)
    (moments : list Moments.LocketMoment) :
  Forall (λ m, hasImage m = true) moments →
  ∀ c out c',
    Sync.convertAll h now uid n c moments = Returned (out, c') →
    (Sync.skippedCount c' + length (kept out)
     = Sync.skippedCount c + length moments)%nat
    ∧ order_index <$> kept out
      = seqZ (Z.of_nat (n + Sync.syncedCount c) + 1)
             (Z.of_nat (length (kept out)))
    ∧ Forall (λ r, image_url r ≠ ""
                   ∧ (∃ t, thumbnail_url r = Some t ∧ t ≠ "")
                   ∧ width r = 1080 ∧ height r = 1080
                   ∧ source r = Some "locket"
                   ∧ locket_user_id r = Some uid
                   ∧ updated_at r = now) (kept out).
Proof.
  induction 1 as [|m ms Hm _ IH]; intros c out c'; simpl.
  - intros [= <- <-]. simpl. split; [lia|]. split; constructor.
  - unfold Sync.convert. case_bool_decide as Hknown; simpl.
    + destruct (Sync.convertAll h now uid n _ ms) as [[rs c2]|e] eqn:Hms;
        simpl; [|done].
      intros [= <- <-]. destruct (IH _ _ _ Hms) as (Hcount & Horder & Hall).
      change (kept (None :: rs)) with (kept rs).
      cbn [Sync.skippedCount Sync.syncedCount length] in *.
      split; [lia|]. by split.
    + destruct (dateStr h now m) as [s|e]; simpl; [|done].
      destruct (Sync.convertAll h now uid n _ ms) as [[rs c2]|e] eqn:Hms;
        simpl; [|done].
      intros [= <- <-]. destruct (IH _ _ _ Hms) as (Hcount & Horder & Hall).
      change (kept (Some ?x :: rs)) with (x :: kept rs).
      cbn [Sync.skippedCount Sync.syncedCount] in *.
      destruct (hasImage_urls m Hm) as [Himage Hthumb].
      split; [cbn [length]; lia|]. split.
      * rewrite fmap_cons, Horder. cbn [order_index length].
        replace (Z.of_nat (S (length (kept rs))))
          with (Z.succ (Z.of_nat (length (kept rs)))) by lia.
        rewrite (seqZ_cons (Z.of_nat (n + Sync.syncedCount c) + 1)) by lia.
        f_equal; [lia|]. f_equal; lia.
      * constructor; [|done]. simpl. split_and!; try done. by eexists.
Qed.

(** X12. When a sync answers 200 to a POST with credentials that the
    moments API answered with a listing, the two counts it reports add
    up to the number of listed moments that have an image, and the file
    it leaves holds the records found followed by as many new records as
    the synced count says. *)
Theorem sync_counts_add_up
    (h : Host) (now : string) (api : MomentsApi) (req : Request)
    (file : DbFile) (result : Moments.Body)
    (listing : list Moments.LocketMoment) :
  method req = "POST" → hasCredentials req →
  api (idToken req) (localId req) = Returned result →
  Moments.success result = true → Moments.data result = Some listing →
  status (Sync.handler h now api req file).1 = 200 →
  ∃ new skipped,
    syncedCount (body (Sync.handler h now api req file).1)
    = Some (length new)
    ∧ skippedCount (body (Sync.handler h now api req file).1) = Some skipped
    ∧ (length new + skipped = length (List.filter hasImage listing))%nat
    ∧ storedImages (Sync.handler h now api req file).2
      = storedImages file ++ new.
Proof.
  intros Hpost Hcred Hapi Hsuccess Hdata.
  rewrite (sync_handler_run h now api req file result listing) by done.
  destruct (Sync.convertAll _ _ _ _ _ _) as [[out final]|e] eqn:Hconv;
    [|done].
  intros _.
  destruct (sync_convertAll_records h now (localId req)
              (length (storedImages file)) (List.filter hasImage listing))
    with (c := syncStart file) (out := out) (c' := final)
    as (Hcount & _); [|done|].
  { apply Forall_forall. intros m Hm.
    apply list_elem_of_In, filter_In in Hm. tauto. }
  simpl in Hcount. exists (kept out), (Sync.skippedCount final).
  destruct (kept out) as [|x new] eqn:Hkept; simpl in *.
  - split_and!; try done; [lia|by rewrite app_nil_r].
  - split_and!; try done. lia.
Qed.

Lemma sync_counts_add_up_witness :
  ∃ new skipped,
    syncedCount
      (body (Sync.handler Sample.host "2024-06-01T10:00:00.000Z"
               (ownMomentsApi Sample.host Sample.locket) Sample.signedIn
               (Stored Sample.db)).1)
    = Some (length new)
    ∧ skippedCount
        (body (Sync.handler Sample.host "2024-06-01T10:00:00.000Z"
                 (ownMomentsApi Sample.host Sample.locket) Sample.signedIn
                 (Stored Sample.db)).1)
      = Some skipped
    ∧ (length new + skipped
       = length (List.filter hasImage Sample.listing))%nat
    ∧ storedImages
        (Sync.handler Sample.host "2024-06-01T10:00:00.000Z"
           (ownMomentsApi Sample.host Sample.locket) Sample.signedIn
           (Stored Sample.db)).2
      = storedImages (Stored Sample.db) ++ new.
Proof.
  apply (sync_counts_add_up Sample.host "2024-06-01T10:00:00.000Z"
           (ownMomentsApi Sample.host Sample.locket) Sample.signedIn
           (Stored Sample.db)
           {| Moments.success := true; Moments.data := Some Sample.listing;
              Moments.total := Some 2%nat; Moments.message := None |}).
  - reflexivity.
  - split; reflexivity.
  - vm_compute. reflexivity.
  - reflexivity.
  - reflexivity.
  - vm_compute. reflexivity.
Defined.

End locket_records.

(** ** [Array.prototype.sort] on lists already in order, or in reverse *)
Section sort_cases.
Context {A : Type} (cmp : A → A → option Z).

Lemma sort_sorted_id (l : list A) :
  StronglySorted (λ a b, Js.keepsBefore cmp a b = true) l → Js.sort cmp l = l.
Proof.
  induction 1 as [|x l Hl IH Hx]; simpl; [done|].
  fold (Js.sort cmp l). rewrite IH.
  destruct Hx as [|y l' Hy _]; simpl; [done|]. by rewrite Hy.
Qed.

Lemma sortInsert_last (x : A) (l : list A) :
  Forall (λ y, Js.keepsBefore cmp x y = false) l →
  Js.sortInsert cmp x l = l ++ [x].
Proof.
  induction 1 as [|y l Hy _ IH]; simpl; [done|]. by rewrite Hy, IH.
Qed.

Lemma sort_sorted_rev (l : list A) :
  StronglySorted (λ a b, Js.keepsBefore cmp a b = false) l →
  Js.sort cmp l = rev l.
Proof.
  induction 1 as [|x l Hl IH Hx]; simpl; [done|].
  fold (Js.sort cmp l). rewrite IH.
  apply sortInsert_last. by apply Forall_rev.
Qed.

(** A comparator that orders the elements with a property [P] one way
    or the other, transitively, sorts the lists of such elements. *)
Section on.
Context (P : A → Prop) (R : A → A → Prop).
Hypothesis keeps : ∀ x y, P x → P y → Js.keepsBefore cmp x y = true ↔ R x y.
Hypothesis total : ∀ x y, P x → P y → R x y ∨ R y x.
Hypothesis trans : ∀ x y z, P x → P y → P z → R x y → R y z → R x z.

Lemma sortInsert_sorted_on (x : A) (l : list A) :
  P x → Forall P l → StronglySorted R l →
  StronglySorted R (Js.sortInsert cmp x l).
Proof.
  intros Hx HP Hsorted. revert HP.
  induction Hsorted as [|y l Hl IH Hy]; simpl; intros HP.
  - repeat constructor.
  - apply Forall_cons in HP as [HPy HP].
    destruct (Js.keepsBefore cmp x y) eqn:Hxy.
    + apply keeps in Hxy; [|done..].
      constructor; [by constructor|]. constructor; [done|].
      rewrite Forall_forall in Hy, HP. apply Forall_forall.
      intros z Hz. eapply (trans x y z); eauto.
    + constructor; [by apply IH|].
      rewrite sortInsert_Permutation. constructor; [|done].
      destruct (total x y) as [Hr|Hr]; [done..| |done].
      apply keeps in Hr; [|done..]. congruence.
Qed.

Lemma sort_sorted_on (l : list A) :
  Forall P l → StronglySorted R (Js.sort cmp l).
Proof.
  induction 1 as [|x l Hx Hl IH]; simpl; [constructor|].
  apply sortInsert_sorted_on; [done| |done].
  by apply sort_Forall.
Qed.
End on.
End sort_cases.

Lemma StronglySorted_weaken_on {A} (P : A → Prop) (R1 R2 : A → A → Prop) l :
  (∀ x y, P x → P y → R1 x y → R2 x y) →
  Forall P l → StronglySorted R1 l → StronglySorted R2 l.
Proof.
  intros HR HP Hsorted. revert HP.
  induction Hsorted as [|x l Hl IH Hx]; intros HP; [constructor|].
  apply Forall_cons in HP as [HPx HP]. constructor; [by apply IH|].
  rewrite Forall_forall in Hx, HP. apply Forall_forall. intros y Hy.
  apply HR; auto.
Qed.

Lemma StronglySorted_of_fmap {A B} (f : A → B) (R : B → B → Prop) l :
  StronglySorted R (f <$> l) → StronglySorted (λ a b, R (f a) (f b)) l.
Proof.
  induction l as [|x l IH]; [constructor|].
  rewrite fmap_cons. intros Hsorted.
  apply StronglySorted_inv in Hsorted as [Hl Hx].
  constructor; [by apply IH|].
  rewrite Forall_forall in Hx. apply Forall_forall. intros y Hy.
  apply Hx, list_elem_of_fmap. eauto.
Qed.

(** ** sync.ts, reset.ts: how runs compose *)
Section locket_composition.
Import Db Spec Locket.

Local Abbreviation kept out := (omap (λ r : option ImageData, r) out).

(** X13. The records a sync appends continue the order indexes from the
    number of records it found (found + 1, found + 2, ...), whatever
    order indexes the stored records have, and each has a non-empty
    image URL and thumbnail URL, the size 1080 x 1080, the source
    [locket], the user id of the request and the time of the run as its
    update time. *)
Theorem sync_appends_locket_records
    (h : Host) (now : string) (api : MomentsApi) (req : Request)
    (file : DbFile) :
  ∃ new,
    storedImages (Sync.handler h now api req file).2
    = storedImages file ++ new
    ∧ order_index <$> new
      = seqZ (Z.of_nat (length (storedImages file)) + 1)
             (Z.of_nat (length new))
    ∧ Forall (λ r, image_url r ≠ ""
                   ∧ (∃ t, thumbnail_url r = Some t ∧ t ≠ "")
                   ∧ width r = 1080 ∧ height r = 1080
                   ∧ source r = Some "locket"
                   ∧ locket_user_id r = Some (localId req)
                   ∧ updated_at r = now) new.
Proof.
  assert (∃ new : list ImageData,
            storedImages file = storedImages file ++ new
            ∧ order_index <$> new
              = seqZ (Z.of_nat (length (storedImages file)) + 1)
                     (Z.of_nat (length new))
            ∧ Forall (λ r, image_url r ≠ ""
                           ∧ (∃ t, thumbnail_url r = Some t ∧ t ≠ "")
                           ∧ width r = 1080 ∧ height r = 1080
                           ∧ source r = Some "locket"
                           ∧ locket_user_id r = Some (localId req)
                           ∧ updated_at r = now) new) as Hnone.
  { exists []. rewrite app_nil_r. split; [done|]. split; constructor. }
  unfold Sync.handler.
  destruct (negb (String.eqb (method req) "POST")); [done|].
  destruct (negb (truthy _) || negb (truthy _)); [done|].
  change (default "" (or (body_token req) (x_locket_token req)))
    with (idToken req).
  change (default "" (or (body_localId req) (x_locket_uid req)))
    with (localId req).
  destruct (api _ _) as [result|e]; simpl; [|done].
  destruct (negb (Moments.success result) || _); [done|].
  rewrite (load_storedImages file).
  destruct (Sync.convertAll _ _ _ _ _ _) as [[out final]|e] eqn:Hconv;
    simpl; [|done].
  destruct (length (kept out) =? 0)%nat; [done|]. simpl.
  exists (kept out). split; [done|].
  eapply (sync_convertAll_records h now (localId req)) in Hconv as (_ & Horder & Hall).
  - simpl in Horder. rewrite Nat.add_0_r in Horder. done.
  - apply Forall_forall. intros m Hm.
    apply list_elem_of_In, filter_In in Hm. tauto.
Qed.

Lemma load_legacy_bound (l : list ImageData) :
  Forall (λ i, i < (Sync.load (LegacyArray l)).2) (id <$> l).
Proof.
  simpl. induction l as [|x l IH]; simpl; [constructor|].
  assert (Js.or (id x) 0 = id x) as ->.
  { unfold Js.or, truthy, truthy_Z. by destruct (Z.eqb_spec (id x) 0). }
  constructor; [lia|]. eapply Forall_impl; [exact IH|]. simpl. lia.
Qed.


End locket_composition.

Lemma fmap_rev {A B} (f : A → B) (l : list A) : f <$> rev l = rev (f <$> l).
Proof.
  induction l as [|x l IH]; [done|].
  rewrite fmap_cons. simpl. by rewrite fmap_app, IH.
Qed.

(** ** reset.ts followed by sync.ts and by list-all *)
Section reset_composition.
Import Db Spec Locket.

Local Abbreviation kept out := (omap (λ r : option ImageData, r) out).

(** The reset handler, for a POST with credentials that the moments API
    answers with a listing, in terms of its [map]. *)
Lemma reset_handler_run (h : Host) (now : string) (api : MomentsApi)
    (req : Request) (file : DbFile) (result : Moments.Body)
    (listing : list Moments.LocketMoment) :
  method req = "POST" → hasCredentials req →
  api (idToken req) (localId req) = Returned result →
  Moments.success result = true → Moments.data result = Some listing →
  Reset.handler h now api req file
  = match Reset.convertAll h now (localId req) 1
            (List.filter hasImage listing) with
    | Thrown e =>
        (failure 500 (or (messageOf e) "Lỗi khi reset dữ liệu"), file)
    | Returned (new, n) =>
        ({| status := 200;
            body := {| success := true;
                       syncedCount := Some (length new);
                       skippedCount := None;
                       message :=
                         Some ("Đã reset và đồng bộ lại " +:+
                               pretty (length new) +:+
                               " ảnh/video từ Locket") |} |},
         Stored {| images := new; nextId := n |})
    end.
Proof.
  intros Hpost [Htok Huid] Hapi Hsuccess Hdata.
  unfold Reset.handler. rewrite Hpost, Htok, Huid.
  cbn [negb orb String.eqb Ascii.eqb Bool.eqb].
  change (default "" (or (body_token req) (x_locket_token req)))
    with (idToken req).
  change (default "" (or (body_localId req) (x_locket_uid req)))
    with (localId req).
  rewrite Hapi. cbn [mbind outcome_bind].
  rewrite Hsuccess, Hdata, bool_decide_true by eauto.
  cbn [negb orb default from_option Datatypes.id].
  by destruct (Reset.convertAll _ _ _ _ _) as [[new n]|e].
Qed.

(** The records of a reset carry their id as order index. *)
Lemma reset_convertAll_order (h : Host) (now uid : string)
    (moments : list Moments.LocketMoment) :
  ∀ n new n',
    Reset.convertAll h now uid n moments = Returned (new, n') →
    order_index <$> new = id <$> new.
Proof.
  induction moments as [|m ms IH]; intros n new n'; simpl.
  - by intros [= <- <-].
  - unfold Reset.convert. destruct (dateStr h now m) as [s|e]; simpl; [|done].
    destruct (Reset.convertAll h now uid (n + 1) ms) as [[rs k]|e] eqn:Hms;
      simpl; [|done].
    intros [= <- <-]. rewrite !fmap_cons, (IH _ _ _ Hms). simpl.
    f_equal. lia.
Qed.

(** What a reset run against the moments route answers and writes. *)
Lemma reset_run (h : Host) (locket : string → Moments.Reply) (now : string)
    (req : Request) (file : DbFile) (listing : list Moments.LocketMoment) :
  method req = "POST" → hasCredentials req →
  listingFor h locket req = Some listing →
  ∃ resp new,
    Reset.handler h now (ownMomentsApi h locket) req file
    = (resp, Stored {| images := new;
                       nextId := 1 + Z.of_nat (length listing) |})
    ∧ status resp = 200
    ∧ slug <$> new = slugOf <$> listing
    ∧ id <$> new = seqZ 1 (Z.of_nat (length listing))
    ∧ order_index <$> new = seqZ 1 (Z.of_nat (length listing)).
Proof.
  intros Hpost Hcred Hlisting.
  destruct (listingFor_listing h locket req listing Hlisting)
    as [Hall Hapi].
  assert (List.filter hasImage listing = listing) as Hfilter.
  { apply filter_all. eapply Forall_impl; [exact Hall|]. by intros m [? _]. }
  assert (Forall (dateable h) listing) as Hdate.
  { eapply Forall_impl; [exact Hall|]. by intros m [_ ?]. }
  destruct (reset_convertAll h now (localId req) listing Hdate 1)
    as (new & Hconv & Hlen & Hslugs & Hids).
  rewrite (reset_handler_run h now _ req file _ listing
             Hpost Hcred Hapi eq_refl eq_refl).
  rewrite Hfilter, Hconv. eexists _, new. split; [done|].
  split; [done|]. split; [done|]. split; [done|].
  by rewrite (reset_convertAll_order _ _ _ _ _ _ _ Hconv).
Qed.

(** X15. A sync that follows a reset, with the moments route returning
    the same listing, adds nothing: it answers 200 with a synced count
    of zero, counts every moment of the listing as skipped and leaves
    the file as the reset wrote it. *)
Theorem reset_then_sync_adds_nothing
    (h : Host) (locket : string → Moments.Reply) (now now' : string)
    (req : Request) (file : DbFile) (listing : list Moments.LocketMoment) :
  method req = "POST" → hasCredentials req →
  listingFor h locket req = Some listing →
  ∃ resp,
    Sync.handler h now' (ownMomentsApi h locket) req
      (Reset.handler h now (ownMomentsApi h locket) req file).2
    = (resp, (Reset.handler h now (ownMomentsApi h locket) req file).2)
    ∧ status resp = 200
    ∧ syncedCount (body resp) = Some 0%nat
    ∧ skippedCount (body resp) = Some (length listing).
Proof.
  intros Hpost Hcred Hlisting.
  destruct (reset_run h locket now req file listing Hpost Hcred Hlisting)
    as (resp1 & new & -> & _ & Hslugs & _).
  destruct (listingFor_listing h locket req listing Hlisting)
    as [Hall Hapi].
  assert (List.filter hasImage listing = listing) as Hfilter.
  { apply filter_all. eapply Forall_impl; [exact Hall|]. by intros m [? _]. }
  cbn [snd].
  set (file1 := Stored {| images := new;
                          nextId := 1 + Z.of_nat (length listing) |}).
  rewrite (sync_handler_run h now' _ req file1 _ listing
             Hpost Hcred Hapi eq_refl eq_refl).
  rewrite Hfilter.
  destruct (sync_convertAll_all_known h now' (localId req)
              (length (storedImages file1)) listing (syncStart file1))
    as (c' & Hconv & Hskipped).
  { intros m Hm. simpl. rewrite elem_of_list_to_set.
    unfold slugs. simpl. rewrite Hslugs. apply list_elem_of_fmap. eauto. }
  rewrite Hconv, kept_replicate_None. simpl.
  eexists. split; [done|]. simpl in Hskipped. by rewrite Hskipped.
Qed.

Lemma reset_then_sync_adds_nothing_witness :
  ∃ resp,
    Sync.handler Sample.host "2024-06-01T10:05:00.000Z"
      (ownMomentsApi Sample.host Sample.locket) Sample.signedIn
      (Reset.handler Sample.host "2024-06-01T10:00:00.000Z"
         (ownMomentsApi Sample.host Sample.locket) Sample.signedIn
         (Stored Sample.db)).2
    = (resp,
       (Reset.handler Sample.host "2024-06-01T10:00:00.000Z"
          (ownMomentsApi Sample.host Sample.locket) Sample.signedIn
          (Stored Sample.db)).2)
    ∧ status resp = 200
    ∧ syncedCount (body resp) = Some 0%nat
    ∧ skippedCount (body resp) = Some (length Sample.listing).
Proof.
  apply reset_then_sync_adds_nothing.
  - reflexivity.
  - split; reflexivity.
  - vm_compute. reflexivity.
Defined.

(** X16. After a reset, list-all of the record store returns the
    records in the reverse of the listing's order: the moments route
    lists the newest moment first, the reset numbers the records 1, 2,
    ... in that order with the order index equal to the id, and list-all
    sorts by order index descending, so the oldest moment comes
    first. *)
Theorem reset_then_list_all_is_reversed
    (h : Host) (locket : string → Moments.Reply) (now : string)
    (req : Request) (file : DbFile) (listing : list Moments.LocketMoment) :
  method req = "POST" → hasCredentials req →
  listingFor h locket req = Some listing →
  ∃ db' l,
    (Reset.handler h now (ownMomentsApi h locket) req file).2 = Stored db'
    ∧ getAllImages (Stored db') = Returned (l, Stored db')
    ∧ l = rev (images db')
    ∧ slug <$> l = rev (slugOf <$> listing).
Proof.
  intros Hpost Hcred Hlisting.
  destruct (reset_run h locket now req file listing Hpost Hcred Hlisting)
    as (resp1 & new & -> & _ & Hslugs & _ & Horder).
  eexists _, (rev new). split; [done|].
  split; [|split; [done|by rewrite fmap_rev, Hslugs]].
  unfold getAllImages, bind, initDB, ret. cbn [images].
  rewrite sort_sorted_rev; [done|].
  pose proof (seqZ_StronglySorted 1 (Z.of_nat (length listing))) as Hsorted.
  rewrite <-Horder in Hsorted. apply StronglySorted_of_fmap in Hsorted.
  eapply StronglySorted_weaken; [|exact Hsorted].
  intros a b Hab. simpl in Hab.
  destruct (Js.keepsBefore byOrderThenId a b) eqn:Hkeeps; [|done].
  apply keepsBefore_byOrderThenId in Hkeeps. unfold listedBefore in Hkeeps.
  lia.
Qed.

Lemma reset_then_list_all_is_reversed_witness :
  ∃ db' l,
    (Reset.handler Sample.host "2024-06-01T10:00:00.000Z"
       (ownMomentsApi Sample.host Sample.locket) Sample.signedIn
       (Stored Sample.db)).2 = Stored db'
    ∧ getAllImages (Stored db') = Returned (l, Stored db')
    ∧ l = rev (images db')
    ∧ slug <$> l = rev (slugOf <$> Sample.listing).
Proof.
  apply reset_then_list_all_is_reversed.
  - reflexivity.
  - split; reflexivity.
  - vm_compute. reflexivity.
Defined.

End reset_composition.

(** ** moments.ts and the gallery page that shows its listing *)
Section moments_page.
Import Spec.

Lemma omap_length_le {A B} (f : A → option B) (l : list A) :
  (length (omap f l) ≤ length l)%nat.
Proof.
  induction l as [|x l IH]; [simpl; lia|].
  change (omap f (x :: l))
    with (match f x with Some y => y :: omap f l | None => omap f l end).
  destruct (f x); cbn [length]; lia.
Qed.

Lemma mapM_total {A B} (f : A → outcome B) (Q : A → B → Prop) (l : list A) :
  Forall (λ x, ∃ y, f x = Returned y ∧ Q x y) l →
  ∃ ys, Js.mapM f l = Returned ys ∧ Forall2 Q l ys.
Proof.
  induction 1 as [|x l (y & Hy & HQ) _ (ys & Hys & HQs)]; simpl.
  - exists []. split; [done|constructor].
  - rewrite Hy. simpl. rewrite Hys. simpl. exists (y :: ys).
    split; [done|]. by constructor.
Qed.

(** A reshaped entry has an id; its two URLs are both empty or both
    non-empty; and the host could render its creation time when it has
    one. *)
Lemma reshape_fields (h : Host) (uid : string) (raw : Moments.Raw.t) m :
  Moments.reshape h uid raw = Returned (Some m) →
  Moments.id m ≠ ""
  ∧ truthy (Moments.imageUrl m) = truthy (Moments.thumbnailUrl m)
  ∧ (truthy (Moments.createTime m) = true →
     ∃ s, toISOString h (default 0 (Moments.createTime m) * 1000)
          = Returned s).
Proof.
  unfold Moments.reshape.
  destruct (negb (truthy _)) eqn:Hid; [done|].
  apply negb_false_iff, truthy_string_nonempty in Hid.
  destruct (truthy (Moments.parseCreateTime h raw)) eqn:Htime; simpl.
  - destruct (toISOString h _) as [s|e] eqn:Hiso; simpl; [|done].
    intros [= <-]. simpl. split; [done|].
    split; [by rewrite !truthy_or_string, orb_comm|]. by eexists.
  - intros [= <-]. simpl. split; [done|].
    split; [by rewrite !truthy_or_string, orb_comm|]. by rewrite Htime.
Qed.

Lemma fetchLocketMoments_fields (h : Host) (reply : Moments.Reply)
    (uid : string) (listing : list Moments.LocketMoment) :
  Moments.fetchLocketMoments h reply uid = Returned listing →
  Forall (λ m, Moments.id m ≠ ""
               ∧ Moments.imageUrl m ≠ "" ∧ Moments.thumbnailUrl m ≠ ""
               ∧ (truthy (Moments.createTime m) = true →
                  ∃ s, toISOString h (default 0 (Moments.createTime m) * 1000)
                       = Returned s)) listing.
Proof.
  unfold Moments.fetchLocketMoments.
  destruct reply as [msg|[entries|]]; [done| |by intros [= <-]].
  destruct (Js.mapM _ entries) as [mapped|e] eqn:Hmap; simpl; [|done].
  intros [= <-]. apply sort_Forall, Forall_forall. intros m Hm.
  apply list_elem_of_In, filter_In in Hm as [Hm Himg].
  apply list_elem_of_In, list_elem_of_omap in Hm as (o & Ho & ->).
  apply mapM_Returned in Hmap.
  apply list_elem_of_lookup in Ho as [i Hi].
  destruct (Forall2_lookup_r _ _ _ _ _ Hmap Hi) as (raw & _ & Hraw).
  destruct (reshape_fields h uid raw m Hraw) as (Hid & Hurls & Htime).
  unfold Moments.hasImage in Himg. rewrite truthy_or_string, Hurls in Himg.
  rewrite orb_diag in Himg. split_and!; [done| | |done].
  - apply truthy_string_nonempty. by rewrite Hurls.
  - by apply truthy_string_nonempty.
Qed.

(** When every creation time is a number, a listing is in order of
    creation time, newest first. *)
Lemma fetchLocketMoments_sorted (h : Host) (reply : Moments.Reply)
    (uid : string) (listing : list Moments.LocketMoment) :
  Moments.fetchLocketMoments h reply uid = Returned listing →
  Forall (λ m, is_Some (Moments.createTime m)) listing →
  StronglySorted
    (λ a b, default 0 (Moments.createTime b)
            ≤ default 0 (Moments.createTime a)) listing.
Proof.
  intros Hfetch Htimes. unfold Moments.fetchLocketMoments in Hfetch.
  destruct reply as [msg|[entries|]]; [done| |injection Hfetch as <-;
                                               constructor].
  destruct (Js.mapM _ entries) as [mapped|e]; simpl in Hfetch; [|done].
  injection Hfetch as <-.
  rewrite sort_Permutation in Htimes.
  apply (sort_sorted_on Moments.newestFirst
           (λ m, is_Some (Moments.createTime m))); [| | |done].
  - intros x y [tx Hx] [ty Hy].
    unfold Js.keepsBefore, Moments.newestFirst. rewrite Hx, Hy. simpl.
    rewrite Z.leb_le. lia.
  - intros x y _ _. lia.
  - intros x y z _ _ _. lia.
Qed.

(** X17. Every moment of a listing that the moments route builds has a
    non-empty id, image URL and thumbnail URL; the listing has no more
    moments than the external service sent entries; and when every
    creation time is a number, the listing is in order of creation
    time, newest first. *)
Theorem moments_listing_invariants
    (h : Host) (reply : Moments.Reply) (uid : string)
    (listing : list Moments.LocketMoment) :
  Moments.fetchLocketMoments h reply uid = Returned listing →
  Forall (λ m, Moments.id m ≠ ""
               ∧ Moments.imageUrl m ≠ ""
               ∧ Moments.thumbnailUrl m ≠ "") listing
  ∧ (∀ entries, reply = Moments.Entries (Some entries) →
       (length listing ≤ length entries)%nat)
  ∧ (Forall (λ m, is_Some (Moments.createTime m)) listing →
     StronglySorted
       (λ a b, default 0 (Moments.createTime b)
               ≤ default 0 (Moments.createTime a)) listing).
Proof.
  intros Hfetch. split; [|split].
  - eapply Forall_impl; [by eapply fetchLocketMoments_fields|].
    simpl. tauto.
  - intros entries ->. simpl in Hfetch.
    destruct (Js.mapM _ entries) as [mapped|e] eqn:Hmap; simpl in Hfetch;
      [|done].
    injection Hfetch as <-. rewrite sort_length.
    apply mapM_Returned, Forall2_length in Hmap. rewrite Hmap.
    etrans; [apply filter_length_le|]. apply omap_length_le.
  - by apply (fetchLocketMoments_sorted h reply uid).
Qed.

Lemma moments_listing_invariants_witness :
  Forall (λ m, Moments.id m ≠ ""
               ∧ Moments.imageUrl m ≠ ""
               ∧ Moments.thumbnailUrl m ≠ "") Sample.listing
  ∧ (∀ entries, Sample.locket "token-1" = Moments.Entries (Some entries) →
       (length Sample.listing ≤ length entries)%nat)
  ∧ (Forall (λ m, is_Some (Moments.createTime m)) Sample.listing →
     StronglySorted
       (λ a b, default 0 (Moments.createTime b)
               ≤ default 0 (Moments.createTime a)) Sample.listing).
Proof.
  apply (moments_listing_invariants Sample.host (Sample.locket "token-1")
           "user-1" Sample.listing).
  vm_compute. reflexivity.
Defined.

(** The answer of the moments route that carries a listing. *)
Lemma moments_handler_listing (h : Host) (locket : string → Moments.Reply)
    (req : Moments.Request) (listing : list Moments.LocketMoment) :
  Moments.data (Moments.body (Moments.handler h locket req)) = Some listing →
  Moments.handler h locket req
  = {| Moments.status := 200;
       Moments.body := {| Moments.success := true;
                          Moments.data := Some listing;
                          Moments.total := Some (length listing);
                          Moments.message := None |} |}
  ∧ ∃ reply uid, Moments.fetchLocketMoments h reply uid = Returned listing.
Proof.
  unfold Moments.handler.
  destruct (negb (String.eqb (Moments.method req) "GET")); [done|].
  destruct (negb (truthy _) || negb (truthy _)); [done|].
  destruct (Moments.fetchLocketMoments h _ _) as [l|e] eqn:Hfetch; simpl.
  - intros [= <-]. split; [done|]. by eexists _, _.
  - by destruct (_ || _).
Qed.

(** X18. When the moments route answers with a listing in which every
    creation time is a number, the gallery page shows exactly that
    listing: one image per moment, in the route's order (its own
    re-sort changes nothing and no date conversion throws), with the
    moment's id as id and slug and a non-empty image URL. *)
Theorem page_shows_route_listing
    (h : Host) (now : string) (locket : string → Moments.Reply)
    (req : Moments.Request) (listing : list Moments.LocketMoment) :
  Moments.data (Moments.body (Moments.handler h locket req)) = Some listing →
  Forall (λ m, is_Some (Moments.createTime m)) listing →
  ∃ images,
    Gallery.fetchMoments h now (Moments.handler h locket req) = Some images
    ∧ Forall2 (λ m img, Images.id img = Moments.id m
                        ∧ Images.slug img = VStr (Moments.id m)
                        ∧ truthy (Images.image_url img) = true)
        listing images.
Proof.
  intros Hdata Htimes.
  destruct (moments_handler_listing h locket req listing Hdata)
    as (-> & reply & uid & Hfetch).
  pose proof (fetchLocketMoments_sorted h reply uid listing Hfetch Htimes)
    as Hsorted.
  pose proof (fetchLocketMoments_fields h reply uid listing Hfetch) as Hfields.
  unfold Gallery.fetchMoments. simpl.
  rewrite sort_sorted_id.
  - destruct (mapM_total (Gallery.momentToImageData h now)
                (λ m img, Images.id img = Moments.id m
                          ∧ Images.slug img = VStr (Moments.id m)
                          ∧ truthy (Images.image_url img) = true) listing)
      as (images & -> & Hall); [|by exists images].
    eapply Forall_impl; [exact Hfields|]. simpl.
    intros m (_ & Himage & _ & Htime). unfold Gallery.momentToImageData.
    destruct (truthy (Moments.createTime m)).
    + destruct (Htime eq_refl) as [s ->]. simpl. eexists. split; [done|].
      simpl. split_and!; try done.
      apply truthy_string_nonempty in Himage.
      unfold truthy at 1, truthy_value. by rewrite truthy_or_string, Himage.
    + simpl. eexists. split; [done|]. simpl. split_and!; try done.
      apply truthy_string_nonempty in Himage.
      unfold truthy at 1, truthy_value. by rewrite truthy_or_string, Himage.
  - eapply StronglySorted_weaken; [|exact Hsorted].
    intros a b Hab. simpl in Hab.
    unfold Js.keepsBefore, Gallery.newestFirst. apply Z.leb_le. lia.
Qed.

Lemma page_shows_route_listing_witness :
  ∃ images,
    Gallery.fetchMoments Sample.host "2024-06-01T10:00:00.000Z"
      (Moments.handler Sample.host Sample.locket
         {| Moments.method := "GET";
            Moments.x_locket_token := Some "token-1";
            Moments.x_locket_uid := Some "user-1" |})
    = Some images
    ∧ Forall2 (λ m img, Images.id img = Moments.id m
                        ∧ Images.slug img = VStr (Moments.id m)
                        ∧ truthy (Images.image_url img) = true)
        Sample.listing images.
Proof.
  apply page_shows_route_listing.
  - vm_compute. reflexivity.
  - repeat constructor; by eexists.
Defined.

End moments_page.

(** ** pages/index.tsx, components/ImageModal.tsx: pages and navigation *)
Section gallery_pages.
Import Images Gallery.

Lemma paginatedImages_eq (images : list ImageData) (p : Z) :
  1 ≤ p →
  paginatedImages images p
  = take 24 (drop (24 * Z.to_nat (p - 1)) images).
Proof.
  intros Hp. unfold paginatedImages, slice, IMAGES_PER_PAGE.
  destruct (Z.ltb_spec ((p - 1) * 24) 0) as [?|_]; [lia|].
  destruct (Z.ltb_spec ((p - 1) * 24 + 24) 0) as [?|_]; [lia|].
  replace (24 * Z.to_nat (p - 1))%nat with (Z.to_nat ((p - 1) * 24)) by lia.
  set (start := (p - 1) * 24) in *.
  destruct (decide (start ≤ Z.of_nat (length images))) as [Hin|Hout].
  - rewrite (Z.min_l start) by lia.
    destruct (decide (start + 24 ≤ Z.of_nat (length images))) as [Hfull|Hlast].
    + rewrite Z.min_l by lia. f_equal. lia.
    + rewrite Z.min_r by lia.
      rewrite !take_ge; [done| |]; rewrite length_drop; lia.
  - rewrite !Z.min_r by lia. rewrite Z.sub_diag. simpl.
    rewrite drop_ge by lia. by rewrite drop_ge by lia.
Qed.

Lemma concat_pages {A} (l : list A) (n : nat) :
  concat ((λ k, take 24 (drop (24 * k) l)) <$> seq 0 n) = take (24 * n) l.
Proof.
  induction n as [|n IH]; [by rewrite Nat.mul_0_r|].
  rewrite seq_S, fmap_app, concat_app, IH. simpl.
  rewrite app_nil_r, take_take_drop. f_equal. lia.
Qed.

Lemma totalPages_bounds (images : list ImageData) :
  1 ≤ totalPages images
  ∧ Z.of_nat (length images) ≤ 24 * totalPages images
  ∧ (images ≠ [] → 24 * (totalPages images - 1) < Z.of_nat (length images)).
Proof.
  unfold totalPages, IMAGES_PER_PAGE.
  assert (images ≠ [] → 0 < Z.of_nat (length images)) as Hne.
  { destruct images; [done|]. simpl. lia. }
  split; [lia|]. split; [Z.to_euclidean_division_equations; lia|].
  intros Himages. specialize (Hne Himages).
  Z.to_euclidean_division_equations; lia.
Qed.

(** X19. The pages of the gallery split the list of images: the pages
    1 to [totalPages], one after the other, are the list itself; every
    page before the last holds 24 images, no page holds more, the last
    page of a non-empty list is not empty, and a page after the last is
    empty. *)
Theorem pages_partition (images : list ImageData) :
  concat (paginatedImages images <$> seqZ 1 (totalPages images)) = images
  ∧ ∀ p, 1 ≤ p →
      (length (paginatedImages images p) ≤ 24)%nat
      ∧ (p < totalPages images → length (paginatedImages images p) = 24%nat)
      ∧ (p ≤ totalPages images → images ≠ [] →
         paginatedImages images p ≠ [])
      ∧ (totalPages images < p → paginatedImages images p = []).
Proof.
  destruct (totalPages_bounds images) as (Hpos & Hupper & Hlower).
  split.
  - unfold seqZ. rewrite <-list_fmap_compose.
    rewrite (list_fmap_ext _ (λ k, take 24 (drop (24 * k) images))).
    + rewrite concat_pages. apply take_ge. lia.
    + intros i k _. simpl. rewrite paginatedImages_eq by lia.
      do 3 f_equal. lia.
  - intros p Hp. rewrite paginatedImages_eq by done.
    rewrite length_take, length_drop. split; [lia|]. split.
    { intros Hlt. destruct (decide (images = [])) as [->|Hne].
      - change (totalPages []) with 1 in Hlt. lia.
      - specialize (Hlower Hne). lia. }
    split.
    + intros Hle Hne Hnil. specialize (Hlower Hne).
      apply (f_equal length) in Hnil.
      rewrite length_take, length_drop in Hnil. cbn [length] in Hnil. lia.
    + intros Hgt. apply length_zero_iff_nil.
      rewrite length_take, length_drop. lia.
Qed.

Lemma image_on_its_page (images : list ImageData) (i : nat) x :
  images !! i = Some x →
  paginatedImages images (pageOf (Z.of_nat i)) !! (i `mod` 24)%nat = Some x
  ∧ 1 ≤ pageOf (Z.of_nat i) ≤ totalPages images.
Proof.
  intros Hi. pose proof (lookup_lt_Some _ _ _ Hi) as Hlt.
  destruct (totalPages_bounds images) as (Hpos & Hupper & _).
  assert (pageOf (Z.of_nat i) = Z.of_nat (i / 24) + 1) as Hpage.
  { unfold pageOf, IMAGES_PER_PAGE. by rewrite (Nat2Z.inj_div i 24). }
  pose proof (Nat.div_mod_eq i 24) as Hdiv.
  pose proof (Nat.mod_upper_bound i 24) as Hmod.
  split.
  - rewrite paginatedImages_eq by lia.
    rewrite lookup_take_lt by lia. rewrite lookup_drop, <-Hi.
    f_equal. rewrite Hpage. lia.
  - rewrite Hpage. lia.
Qed.

Lemma findIndex_NoDup (images : list ImageData) (i : nat) x :
  NoDup (id <$> images) → images !! i = Some x →
  findIndex (λ img, id img = id x) images = Z.of_nat i.
Proof.
  intros Hnd Hi. unfold findIndex.
  destruct (list_find _ images) as [[j y]|] eqn:Hfind.
  - apply list_find_Some in Hfind as (Hj & Hid & _).
    f_equal. eapply NoDup_lookup; [exact Hnd| |].
    + by rewrite list_lookup_fmap, Hj.
    + rewrite list_lookup_fmap, Hi. simpl. by rewrite Hid.
  - apply list_find_None in Hfind. rewrite Forall_forall in Hfind.
    destruct (Hfind x); [|done]. by eapply list_elem_of_lookup_2.
Qed.

Lemma findIndex_absent (images : list ImageData) (s : string) :
  s ∉ id <$> images → findIndex (λ img, id img = s) images = -1.
Proof.
  intros Hs. unfold findIndex.
  destruct (list_find _ images) as [[j y]|] eqn:Hfind; [|done].
  apply list_find_Some in Hfind as (Hj & Hid & _).
  destruct Hs. apply list_elem_of_fmap. exists y.
  split; [done|]. by eapply list_elem_of_lookup_2.
Qed.

(** X20. With ids identifying the images, navigating to an image of the
    list selects it and moves the page to one of the pages 1 to
    [totalPages] that shows it; navigating to an image whose id is not
    in the list selects it and leaves the page where it was. *)
Theorem handleNavigate_follows_image
    (images : list ImageData) (x : ImageData) (v : View) :
  NoDup (id <$> images) →
  selectedImage (handleNavigate images x v) = Some x
  ∧ (x ∈ images →
     x ∈ paginatedImages images (currentPage (handleNavigate images x v))
     ∧ 1 ≤ currentPage (handleNavigate images x v) ≤ totalPages images)
  ∧ (id x ∉ id <$> images →
     currentPage (handleNavigate images x v) = currentPage v).
Proof.
  intros Hnd. split; [done|]. split.
  - intros [i Hi]%list_elem_of_lookup. unfold handleNavigate. simpl.
    rewrite (findIndex_NoDup images i x Hnd Hi).
    destruct (Z.leb_spec 0 (Z.of_nat i)) as [_|?]; [|lia].
    destruct (image_on_its_page images i x Hi) as [Hpage Hbounds].
    split; [by eapply list_elem_of_lookup_2|done].
  - intros Hx. unfold handleNavigate. simpl.
    by rewrite findIndex_absent.
Qed.

Lemma handleNavigate_follows_image_witness :
  ∃ x,
    head Sample.tiles = Some x
    ∧ selectedImage
        (handleNavigate Sample.tiles x
           {| currentPage := 3; selectedImage := None |})
      = Some x
    ∧ (x ∈ Sample.tiles →
       x ∈ paginatedImages Sample.tiles
             (currentPage
                (handleNavigate Sample.tiles x
                   {| currentPage := 3; selectedImage := None |}))
       ∧ 1 ≤ currentPage
               (handleNavigate Sample.tiles x
                  {| currentPage := 3; selectedImage := None |})
           ≤ totalPages Sample.tiles)
    ∧ (id x ∉ id <$> Sample.tiles →
       currentPage
         (handleNavigate Sample.tiles x
            {| currentPage := 3; selectedImage := None |}) = 3).
Proof.
  eexists. split; [reflexivity|].
  apply (handleNavigate_follows_image Sample.tiles).
  exact (bool_decide_unpack (NoDup (id <$> Sample.tiles)) I).
Defined.

(** X21. With ids identifying the images, the modal's next and previous
    moves follow the list: from the image at position i, next hands over
    the image at i + 1 and nothing at the end of the list, previous the
    image at i - 1 and nothing at the start; so previous undoes next.
    From an image that is not in the list, neither moves. *)
Theorem modal_moves_along_list
    (images : list ImageData) (i : nat) (x : ImageData) :
  NoDup (id <$> images) → images !! i = Some x →
  goNext images (Some x) = images !! S i
  ∧ goPrev images (Some x)
    = match i with O => None | S j => images !! j end
  ∧ (∀ y, goNext images (Some x) = Some y → goPrev images (Some y) = Some x)
  ∧ (∀ z, id z ∉ id <$> images →
       goNext images (Some z) = None ∧ goPrev images (Some z) = None).
Proof.
  intros Hnd Hi. pose proof (lookup_lt_Some _ _ _ Hi) as Hlt.
  assert (goNext images (Some x) = images !! S i) as Hnext.
  { unfold goNext, idx, hasNext. rewrite (findIndex_NoDup images i x Hnd Hi).
    destruct (Z.leb_spec 0 (Z.of_nat i)) as [_|?]; [|lia].
    destruct (Z.ltb_spec (Z.of_nat i) (Z.of_nat (length images) - 1))
      as [Hin|Hend]; simpl.
    - f_equal. lia.
    - symmetry. apply lookup_ge_None. lia. }
  split; [done|]. split; [|split].
  - unfold goPrev, idx, hasPrev. rewrite (findIndex_NoDup images i x Hnd Hi).
    destruct i as [|j]; [done|].
    destruct (Z.ltb_spec 0 (Z.of_nat (S j))) as [_|?]; [|lia].
    f_equal. lia.
  - intros y Hy. rewrite Hnext in Hy.
    unfold goPrev, idx, hasPrev.
    rewrite (findIndex_NoDup images (S i) y Hnd Hy).
    destruct (Z.ltb_spec 0 (Z.of_nat (S i))) as [_|?]; [|lia].
    rewrite <-Hi. f_equal. lia.
  - intros z Hz. unfold goNext, goPrev, idx, hasNext, hasPrev.
    by rewrite findIndex_absent.
Qed.

Lemma modal_moves_along_list_witness :
  ∃ x,
    head Sample.tiles = Some x
    ∧ goNext Sample.tiles (Some x) = Sample.tiles !! 1%nat
    ∧ goPrev Sample.tiles (Some x) = None
    ∧ (∀ y, goNext Sample.tiles (Some x) = Some y →
            goPrev Sample.tiles (Some y) = Some x)
    ∧ (∀ z, id z ∉ id <$> Sample.tiles →
         goNext Sample.tiles (Some z) = None
         ∧ goPrev Sample.tiles (Some z) = None).
Proof.
  eexists. split; [reflexivity|].
  apply (modal_moves_along_list Sample.tiles 0).
  - exact (bool_decide_unpack (NoDup (id <$> Sample.tiles)) I).
  - reflexivity.
Defined.

End gallery_pages.

(** ** pages/api/admin/images.ts: the shape of a generated slug *)
Section slug_text.
Import Admin Spec.

Lemma isDash_eq (c : ascii) : isDash c = true ↔ c = "-"%char.
Proof. unfold isDash. apply Ascii.eqb_eq. Qed.

Lemma isAlnum_not_dash (c : ascii) : isAlnum c = true → isDash c = false.
Proof.
  intros Hc. destruct (isDash c) eqn:Hd; [|done].
  apply isDash_eq in Hd as ->. done.
Qed.

Lemma isAlnum_not_sep (c : ascii) :
  isAlnum c = true ∨ c = "-"%char → negb (isDot c || isSlash c) = true.
Proof.
  intros [Hc| ->]; [|done]. unfold isDot, isSlash.
  destruct (Ascii.eqb_spec c ".") as [->|_]; [done|].
  destruct (Ascii.eqb_spec c "/") as [->|_]; done.
Qed.

Lemma lowerAscii_slug_char (c : ascii) :
  isAlnum c = true ∨ c = "-"%char → lowerAscii c = c.
Proof.
  intros [Hc| ->]; [|done]. unfold lowerAscii, isAlnum in *.
  destruct ((65 <=? nat_of_ascii c)%nat && (nat_of_ascii c <=? 90)%nat)
    eqn:Hupper; [|done].
  apply andb_true_iff in Hupper as [H1%Nat.leb_le H2%Nat.leb_le].
  apply orb_true_iff in Hc
    as [[H3%Nat.leb_le H4%Nat.leb_le]%andb_true_iff
       |[H3%Nat.leb_le H4%Nat.leb_le]%andb_true_iff]; lia.
Qed.

Lemma dashRuns_chars (b : bool) (s : list ascii) :
  Forall (λ c, isAlnum c = true ∨ c = "-"%char) (dashRuns b s).
Proof.
  revert b. induction s as [|c s IH]; intros b; simpl; [constructor|].
  destruct (isAlnum c) eqn:Hc; [constructor; auto|].
  destruct b; [apply IH|]. constructor; auto.
Qed.

Lemma dashRuns_single (b : bool) (s : list ascii) :
  singleDashes b (dashRuns b s) = true.
Proof.
  revert b. induction s as [|c s IH]; intros b; simpl; [done|].
  destruct (isAlnum c) eqn:Hc.
  - simpl. rewrite (isAlnum_not_dash c Hc). apply IH.
  - destruct b; [apply IH|]. simpl. apply IH.
Qed.

Lemma singleDashes_weaken (b : bool) (s : list ascii) :
  singleDashes true s = true → singleDashes b s = true.
Proof.
  destruct s as [|c s]; simpl; [done|].
  destruct (isDash c); [done|done].
Qed.

Lemma dropWhile_single (b : bool) (s : list ascii) :
  singleDashes b s = true → singleDashes true (dropWhile isDash s) = true.
Proof.
  revert b. induction s as [|c s IH]; intros b; simpl; [done|].
  destruct (isDash c) eqn:Hc.
  - intros [_ Hs]%andb_true_iff. by eapply IH.
  - intros Hs. simpl. by rewrite Hc.
Qed.

Lemma dropWhile_Forall {A} (p : A → bool) (P : A → Prop) (l : list A) :
  Forall P l → Forall P (dropWhile p l).
Proof.
  induction 1 as [|x l Hx Hl IH]; simpl; [constructor|].
  destruct (p x); [done|by constructor].
Qed.

Lemma dropWhile_head {A} (p : A → bool) (l : list A) x :
  head (dropWhile p l) = Some x → p x = false.
Proof.
  induction l as [|y l IH]; simpl; [done|].
  destruct (p y) eqn:Hy; [done|]. simpl. by intros [= <-].
Qed.

Lemma dropWhile_suffix {A} (p : A → bool) (l : list A) :
  ∃ pre, l = pre ++ dropWhile p l.
Proof.
  induction l as [|y l [pre IH]]; simpl; [by exists []|].
  destruct (p y); [|by exists []]. exists (y :: pre). simpl. by f_equal.
Qed.

Lemma dropWhile_id {A} (p : A → bool) (l : list A) :
  (∀ x, head l = Some x → p x = false) → dropWhile p l = l.
Proof.
  destruct l as [|y l]; simpl; [done|]. intros Hy.
  by rewrite (Hy y eq_refl).
Qed.

Lemma head_rev {A} (l : list A) : head (rev l) = last l.
Proof.
  induction l as [|x l IH] using rev_ind; [done|].
  by rewrite rev_app_distr, last_snoc.
Qed.

Lemma singleDashes_app_l (b : bool) (s t : list ascii) :
  singleDashes b (s ++ t) = true → singleDashes b s = true.
Proof.
  revert b. induction s as [|c s IH]; intros b; simpl; [done|].
  destruct (isDash c).
  - intros [Hb Hs]%andb_true_iff. rewrite Hb. by apply IH.
  - apply IH.
Qed.

Lemma trimDashes_slugText (b : bool) (s : list ascii) :
  Forall (λ c, isAlnum c = true ∨ c = "-"%char) s →
  singleDashes b s = true → slugText (trimDashes s).
Proof.
  intros Hchars Hsingle. unfold trimDashes.
  set (t := dropWhile isDash s).
  assert (Forall (λ c, isAlnum c = true ∨ c = "-"%char) t) as Ht
    by by apply dropWhile_Forall.
  assert (singleDashes true t = true) as Hts by by eapply dropWhile_single.
  destruct (dropWhile_suffix isDash (rev t)) as [pre Hpre].
  apply (f_equal (@rev ascii)) in Hpre.
  rewrite rev_involutive, rev_app_distr in Hpre.
  split; [|split].
  - rewrite Hpre in Ht. by apply Forall_app in Ht as [? _].
  - rewrite Hpre in Hts. by eapply singleDashes_app_l.
  - rewrite <-head_rev, rev_involutive. intros Hhead.
    by apply dropWhile_head in Hhead.
Qed.

(** X22. Whatever the file name, the slug that the upload branch
    derives from it is made of the characters a-z, 0-9 and dashes only,
    has no two dashes in a row and no dash at its start or its end (it
    may be empty). *)
Theorem generateSlug_is_slug_text (filename : string) :
  slugText (list_ascii_of_string (generateSlug filename)).
Proof.
  unfold generateSlug. rewrite list_ascii_of_string_of_list_ascii.
  eapply trimDashes_slugText; [apply dashRuns_chars|apply dashRuns_single].
Qed.

Lemma takeWhile_all {A} (p : A → bool) (l : list A) :
  Forall (λ x, p x = true) l → takeWhile p l = l ∧ dropWhile p l = [].
Proof.
  induction 1 as [|x l Hx _ [IH1 IH2]]; simpl; [done|].
  by rewrite Hx, IH1, IH2.
Qed.

Lemma stripExtension_id (s : list ascii) :
  Forall (λ c, isAlnum c = true ∨ c = "-"%char) s → stripExtension s = s.
Proof.
  intros Hs. unfold stripExtension.
  destruct (takeWhile_all (λ c, negb (isDot c || isSlash c)) (rev s))
    as [-> ->].
  - apply Forall_rev. eapply Forall_impl; [exact Hs|].
    apply isAlnum_not_sep.
  - by destruct (rev s).
Qed.

Lemma dashRuns_id (b : bool) (s : list ascii) :
  Forall (λ c, isAlnum c = true ∨ c = "-"%char) s →
  singleDashes b s = true → dashRuns b s = s.
Proof.
  intros Hs. revert b. induction Hs as [|c s Hc _ IH]; intros b; simpl;
    [done|].
  destruct (isAlnum c) eqn:Halnum.
  - rewrite (isAlnum_not_dash c Halnum). intros Hsingle.
    by rewrite (IH false).
  - destruct Hc as [?| ->]; [congruence|]. simpl.
    intros [Hb Hsingle]%andb_true_iff. apply negb_true_iff in Hb as ->.
    by rewrite (IH true).
Qed.

Lemma trimDashes_id (s : list ascii) : slugText s → trimDashes s = s.
Proof.
  intros (_ & Hsingle & Hlast). unfold trimDashes.
  rewrite (dropWhile_id isDash s).
  - rewrite (dropWhile_id isDash (rev s)); [apply rev_involutive|].
    intros x. rewrite head_rev. intros Hx.
    destruct (isDash x) eqn:Hd; [|done].
    apply isDash_eq in Hd as ->. done.
  - intros x Hx. destruct s as [|c s]; [done|]. injection Hx as ->.
    simpl in Hsingle. by destruct (isDash x).
Qed.

Lemma map_lowerAscii_id (s : list ascii) :
  Forall (λ c, isAlnum c = true ∨ c = "-"%char) s →
  List.map lowerAscii s = s.
Proof.
  induction 1 as [|c s Hc _ IH]; simpl; [done|].
  by rewrite (lowerAscii_slug_char c Hc), IH.
Qed.

(** X23. A generated slug is a fixed point of the slug derivation:
    deriving a slug from a slug gives the same slug back. *)
Theorem generateSlug_idempotent (filename : string) :
  generateSlug (generateSlug filename) = generateSlug filename.
Proof.
  assert (slugText (list_ascii_of_string (generateSlug filename)))
    as Hslug.
  { unfold generateSlug. rewrite list_ascii_of_string_of_list_ascii.
    eapply trimDashes_slugText; [apply dashRuns_chars|apply dashRuns_single]. }
  set (t := generateSlug filename) in *.
  destruct Hslug as (Hchars & Hsingle & Hlast).
  unfold generateSlug at 1. unfold toLowerCase.
  rewrite list_ascii_of_string_of_list_ascii.
  rewrite map_lowerAscii_id by done.
  rewrite stripExtension_id by done.
  rewrite (dashRuns_id false) by (done || by apply singleDashes_weaken).
  rewrite trimDashes_id by done.
  apply string_of_list_ascii_of_string.
Qed.

End slug_text.

(** ** pages/api/admin/images.ts: what an upload stores *)
Section uploads.
Import Db Spec Admin.

Lemma title_not_empty (a b : option string) :
  default "Untitled" (Js.or (Js.or a b) (Some "Untitled")) ≠ "".
Proof.
  unfold Js.or, truthy, truthy_option.
  destruct a as [a|]; simpl.
  - destruct (truthy a) eqn:Ha; simpl.
    + rewrite Ha. simpl. by apply truthy_string_nonempty.
    + destruct b as [b|]; simpl; [|done].
      destruct (truthy b) eqn:Hb; simpl; [|done].
      by apply truthy_string_nonempty.
  - destruct b as [b|]; simpl; [|done].
    destruct (truthy b) eqn:Hb; simpl; [|done].
    by apply truthy_string_nonempty.
Qed.


Lemma list_ascii_of_string_app (a b : string) :
  list_ascii_of_string (a +:+ b)
  = list_ascii_of_string a ++ list_ascii_of_string b.
Proof. induction a as [|c a IH]; simpl; [done|]. by rewrite IH. Qed.

Lemma string_app_inv_tail (a b c : string) : a +:+ c = b +:+ c → a = b.
Proof.
  intros Heq. apply (f_equal list_ascii_of_string) in Heq.
  rewrite !list_ascii_of_string_app in Heq. apply app_inv_tail in Heq.
  apply (f_equal string_of_list_ascii) in Heq.
  by rewrite !string_of_list_ascii_of_string in Heq.
Qed.

(** X25. Two stored uploads of files of one name, made at different
    readings of the clock, get different image paths and different
    thumbnail paths, while their slugs are the same when the name is
    not empty. *)
Theorem uploads_get_distinct_paths
    (d1 d2 : Z) (now1 now2 : string) (up1 up2 : Upload)
    (file1 file2 file1' file2' : DbFile) (r1 r2 : ImageData) :
  upload d1 now1 up1 file1
  = ({| status := 201; body := ImageBody r1 |}, file1') →
  upload d2 now2 up2 file2
  = ({| status := 201; body := ImageBody r2 |}, file2') →
  originalFilename up1 = originalFilename up2 → d1 ≠ d2 →
  image_url r1 ≠ image_url r2
  ∧ thumbnail_url r1 ≠ thumbnail_url r2
  ∧ (truthy (originalFilename up1) = true → slug r1 = slug r2).
Proof.
  unfold upload, imageData. intros Hup1 Hup2 Hname Hd.
  destruct (metadata up1) as [[w1 h1]|e]; simpl in Hup1; [|done].
  destruct (metadata up2) as [[w2 h2]|e]; simpl in Hup2; [|done].
  assert (∀ a b : string,
            a +:+ pretty d1 +:+ "-" +:+ default "null" (originalFilename up1)
            = b +:+ pretty d2 +:+ "-" +:+ default "null" (originalFilename up2)
            → a = b → False) as Hdiff.
  { intros a b Heq ->. rewrite Hname in Heq.
    apply String.app_inj in Heq.
    apply string_app_inv_tail in Heq. by apply pretty_Z_inj in Heq. }
  assert (∃ i1 c1 u1,
            r1 = mkImageData i1
                   (generateSlug
                      (orDefault (originalFilename up1)
                         (pretty d1 +:+ "-" +:+
                          default "null" (originalFilename up1))))
                   (title r1) (description r1)
                   ("/uploads/" +:+ pretty d1 +:+ "-" +:+
                    default "null" (originalFilename up1))
                   (Some ("/uploads/" +:+ "thumb-" +:+ pretty d1 +:+ "-" +:+
                          default "null" (originalFilename up1)))
                   None (width r1) (height r1) (file_size r1) 0 c1 u1
                   None None None None) as (i1 & c1 & u1 & Hr1).
  { destruct file1 as [| |l1|db1]; simpl in Hup1; try done;
      injection Hup1 as <- _; by eexists _, _, _. }
  assert (∃ i2 c2 u2,
            r2 = mkImageData i2
                   (generateSlug
                      (orDefault (originalFilename up2)
                         (pretty d2 +:+ "-" +:+
                          default "null" (originalFilename up2))))
                   (title r2) (description r2)
                   ("/uploads/" +:+ pretty d2 +:+ "-" +:+
                    default "null" (originalFilename up2))
                   (Some ("/uploads/" +:+ "thumb-" +:+ pretty d2 +:+ "-" +:+
                          default "null" (originalFilename up2)))
                   None (width r2) (height r2) (file_size r2) 0 c2 u2
                   None None None None) as (i2 & c2 & u2 & Hr2).
  { destruct file2 as [| |l2|db2]; simpl in Hup2; try done;
      injection Hup2 as <- _; by eexists _, _, _. }
  rewrite Hr1, Hr2. cbn [image_url thumbnail_url slug]. split_and!.
  - intros Heq. by apply (Hdiff "/uploads/" "/uploads/").
  - intros [= Heq].
    apply (Hdiff "" ""); [exact Heq|done].
  - rewrite <-Hname. destruct (originalFilename up1) as [n|]; [|done].
    unfold orDefault, Js.or. intros Hn.
    change (truthy (Some n)) with (truthy n) in Hn. by rewrite Hn.
Qed.

Lemma uploads_get_distinct_paths_witness :
  ∃ r1 r2,
    ids Sample.uploadedTwice = id <$> [r1; r2]
    ∧ image_url r1 ≠ image_url r2
    ∧ thumbnail_url r1 ≠ thumbnail_url r2
    ∧ (truthy (originalFilename Sample.desertSunset) = true →
       slug r1 = slug r2).
Proof.
  eexists _, _. split; [|
    eapply (uploads_get_distinct_paths 1717236000000 1717236060000
              "2024-06-01T10:00:00.000Z" "2024-06-01T10:01:00.000Z"
              Sample.desertSunset Sample.desertSunset NoFile
              (upload 1717236000000 "2024-06-01T10:00:00.000Z"
                 Sample.desertSunset NoFile).2);
    [reflexivity|reflexivity|reflexivity|lia]].
  reflexivity.
Defined.

End uploads.

(** ** lib/images.ts on the files the record store writes *)
Section reader_on_store.
Import Spec.

(** What the reader makes of a stored record: the id as text (the slug
    when the id is 0), the slug and the image URL. *)
Local Abbreviation shown r x :=
  (Images.id x = (if truthy (Db.id r) then pretty (Db.id r) else Db.slug r)
   ∧ Images.slug x = VStr (Db.slug r)
   ∧ Images.image_url x = VStr (Db.image_url r)).

Lemma falsy_string_empty (s : string) : truthy s = false → s = "".
Proof.
  unfold truthy, truthy_string. by destruct (String.eqb_spec s "").
Qed.

Lemma or_string_default (s : string) :
  Js.or (VStr s) (VStr "") = VStr s.
Proof.
  unfold Js.or. change (truthy (VStr s)) with (truthy s).
  destruct (truthy s) eqn:Hs; [done|]. by rewrite (falsy_string_empty s Hs).
Qed.

Lemma convert_image (now : string) (v : value) (r : Db.ImageData) :
  Disk.image v r → ∃ x, Images.convert now v = Returned x ∧ shown r x.
Proof.
  intros (fields & -> & Hid & Hslug & _ & _ & Hurl & _ & _ & _ & _ & _ & _
          & _ & _ & _ & Hthumb & _).
  eexists. split; [reflexivity|]. cbn [Images.id Images.slug Images.image_url].
  rewrite Hid, Hslug, Hurl, Hthumb. cbn [default from_option Datatypes.id].
  split_and!.
  - unfold Js.or at 2. change (truthy (VNum (Db.id r))) with (truthy (Db.id r)).
    destruct (truthy (Db.id r)) eqn:Hi.
    + unfold Js.or. change (truthy (VNum (Db.id r))) with (truthy (Db.id r)).
      by rewrite Hi.
    + by rewrite or_string_default.
  - apply or_string_default.
  - unfold Js.or at 2.
    change (truthy (VStr (Db.image_url r))) with (truthy (Db.image_url r)).
    destruct (truthy (Db.image_url r)) eqn:Hu.
    + unfold Js.or.
      change (truthy (VStr (Db.image_url r))) with (truthy (Db.image_url r)).
      by rewrite Hu.
    + unfold Js.or. simpl. by rewrite (falsy_string_empty _ Hu).
Qed.

Lemma convert_images (now : string) (items : list value)
    (rs : list Db.ImageData) :
  Forall2 Disk.image items rs →
  ∃ xs, Js.mapM (Images.convert now) items = Returned xs
        ∧ Forall2 (λ r x, shown r x) rs xs.
Proof.
  induction 1 as [|v r items rs Hv _ (xs & Hxs & Hall)]; simpl.
  - exists []. split; [done|constructor].
  - destruct (convert_image now v r Hv) as (x & -> & Hx). simpl.
    rewrite Hxs. simpl. exists (x :: xs). split; [done|by constructor].
Qed.

(** The reader on a file of the record store, in terms of the stored
    records. *)
Lemma reader_on_contents (h : Host) (now : string) (v : value)
    (file : Db.DbFile) :
  Disk.contents v file →
  ∃ xs,
    Forall2 (λ r x, shown r x) (storedImages file) xs
    ∧ Images.getAllImages h now (Images.Contents (Returned v))
      = Returned
          (Js.sort (Images.newestFirst h)
             (List.filter (λ x, truthy (Images.image_url x)) xs)).
Proof.
  destruct file as [| |rs|db]; simpl; try done.
  - intros (items & -> & Hitems).
    destruct (convert_images now items rs Hitems) as (xs & Hxs & Hall).
    exists xs. split; [done|].
    unfold Images.getAllImages, Images.readImages, Images.mapImages.
    simpl. rewrite Hxs. done.
  - intros (fields & items & -> & Himages & Hitems).
    destruct (convert_images now items (Db.images db) Hitems)
      as (xs & Hxs & Hall).
    exists xs. split; [done|].
    unfold Images.getAllImages, Images.readImages, Images.mapImages.
    simpl. rewrite Himages. simpl. rewrite Hxs. done.
Qed.

Lemma shown_filter (rs : list Db.ImageData) (xs : list Images.ImageData) :
  Forall2 (λ r x, shown r x) rs xs →
  Forall2 (λ r x, shown r x)
    (List.filter (λ r, truthy (Db.image_url r)) rs)
    (List.filter (λ x, truthy (Images.image_url x)) xs).
Proof.
  induction 1 as [|r x rs xs (Hid & Hslug & Hurl) _ IH]; simpl;
    [constructor|].
  rewrite Hurl. change (truthy (VStr (Db.image_url r)))
    with (truthy (Db.image_url r)).
  destruct (truthy (Db.image_url r)); [|done]. by constructor.
Qed.

Lemma shown_fmap (rs : list Db.ImageData) (xs : list Images.ImageData) :
  Forall2 (λ r x, shown r x) rs xs →
  (λ x, (Images.id x, Images.slug x, Images.image_url x)) <$> xs
  = (λ r, (if truthy (Db.id r) then pretty (Db.id r) else Db.slug r,
           VStr (Db.slug r), VStr (Db.image_url r))) <$> rs.
Proof.
  induction 1 as [|r x rs xs (Hid & Hslug & Hurl) _ IH]; [done|].
  rewrite !fmap_cons, IH. by rewrite Hid, Hslug, Hurl.
Qed.


Lemma sample_contents :
  Disk.contents (Disk.encode Sample.db) (Db.Stored Sample.db).
Proof.
  eexists _, _. split; [reflexivity|]. split; [reflexivity|].
  repeat constructor;
    (eexists; split; [reflexivity|];
     split_and!; try reflexivity; by left).
Qed.


(** X27. On such a file, the reader's lookup by slug finds an image
    exactly when some stored record has that slug and a non-empty image
    URL, and the image found has the slug asked for. *)
Theorem reader_getImageBySlug_finds_stored
    (h : Host) (now : string) (s : string) (v : value) (file : Db.DbFile) :
  Disk.contents v file →
  ∃ o,
    Images.getImageBySlug h now s (Images.Contents (Returned v)) = Returned o
    ∧ (is_Some o ↔ ∃ r, r ∈ storedImages file ∧ Db.slug r = s
                        ∧ Db.image_url r ≠ "")
    ∧ (∀ x, o = Some x → Images.slug x = VStr s
                         ∧ truthy (Images.image_url x) = true).
Proof.
  intros Hfile.
  destruct (reader_on_contents h now v file Hfile) as (xs & Hall & Hread).
  unfold Images.getImageBySlug. rewrite Hread. simpl.
  set (l := Js.sort (Images.newestFirst h)
              (List.filter (λ x, truthy (Images.image_url x)) xs)).
  set (p := λ img : Images.ImageData,
              match Images.slug img with
              | VStr x => String.eqb x s
              | _ => false
              end).
  eexists. split; [done|].
  assert (∀ x, x ∈ l ↔ x ∈ xs ∧ truthy (Images.image_url x) = true) as Hl.
  { intros x. unfold l. rewrite elem_of_sort, list_elem_of_In, filter_In.
    by rewrite <-list_elem_of_In. }
  assert (∀ x, x ∈ xs → p x = true ↔ Images.slug x = VStr s) as Hp.
  { intros x [i Hi]%list_elem_of_lookup.
    destruct (Forall2_lookup_r _ _ _ _ _ Hall Hi) as (r & _ & _ & Hslug & _).
    unfold p. rewrite Hslug. rewrite String.eqb_eq.
    split; [by intros ->|by intros [= ->]]. }
  split; [split|].
  - intros [x Hx]. apply find_some in Hx as [Hin Hpx].
    apply list_elem_of_In, Hl in Hin as [Hin Hurl].
    apply (Hp x Hin) in Hpx.
    apply list_elem_of_lookup in Hin as [i Hi].
    destruct (Forall2_lookup_r _ _ _ _ _ Hall Hi)
      as (r & Hr & _ & Hslug & Himage).
    exists r. split; [by eapply list_elem_of_lookup_2|].
    rewrite Hslug in Hpx. rewrite Himage in Hurl.
    split; [congruence|]. by apply truthy_string_nonempty.
  - intros (r & [i Hi]%list_elem_of_lookup & Hslug & Hurl).
    destruct (Forall2_lookup_l _ _ _ _ _ Hall Hi)
      as (x & Hx & _ & Hxslug & Hximage).
    destruct (List.find p l) as [y|] eqn:Hfind; [by eexists|].
    assert (x ∈ l) as Hin.
    { apply Hl. split; [by eapply list_elem_of_lookup_2|].
      rewrite Hximage. by apply truthy_string_nonempty. }
    apply list_elem_of_In in Hin.
    pose proof (find_none _ _ Hfind x Hin) as Hpx.
    unfold p in Hpx. rewrite Hxslug, Hslug, String.eqb_refl in Hpx. done.
  - intros x Hx. apply find_some in Hx as [Hin Hpx].
    apply list_elem_of_In, Hl in Hin as [Hin Hurl].
    split; [by apply (Hp x Hin)|done].
Qed.

Lemma reader_getImageBySlug_finds_stored_witness :
  ∃ o,
    Images.getImageBySlug Sample.host "2024-06-01T10:00:00.000Z" "stone"
      (Images.Contents (Returned (Disk.encode Sample.db))) = Returned o
    ∧ (is_Some o ↔ ∃ r, r ∈ storedImages (Db.Stored Sample.db)
                        ∧ Db.slug r = "stone" ∧ Db.image_url r ≠ "")
    ∧ (∀ x, o = Some x → Images.slug x = VStr "stone"
                         ∧ truthy (Images.image_url x) = true).
Proof.
  apply reader_getImageBySlug_finds_stored. apply sample_contents.
Defined.

End reader_on_store.

(** ** pages/api/images/index.ts on files other than a database object *)
Section read_api_edges.
Import Db Spec ImagesApi.

(** X28. The read route never changes a database object: whatever the
    request, it returns with the file as it found it. A request that is
    not a GET is answered 405 without reading the file, whatever state
    the file is in. A GET on a missing file creates the empty database
    and answers 404 to a non-empty slug and 200 with the empty list
    otherwise. A GET on a file that does not parse, or that holds a bare
    array, throws: the route has no handler for it and returns
    nothing. *)
Theorem read_api_reads_only (req : Request) (file : DbFile) :
  (∀ db, file = Stored db → ∃ resp, handler req file = Returned (resp, file))
  ∧ (method req ≠ "GET" →
     handler req file
     = Returned ({| status := 405; body := ErrorBody "Method not allowed" |},
                 file))
  ∧ (method req = "GET" → file = NoFile →
     handler req file
     = Returned
         (match slug req with
          | Single s =>
              if truthy s
              then {| status := 404; body := ErrorBody "Image not found" |}
              else {| status := 200; body := ListBody [] |}
          | _ => {| status := 200; body := ListBody [] |}
          end, Stored initialData))
  ∧ (method req = "GET" → file = Garbled ∨ (∃ l, file = LegacyArray l) →
     ∃ e, handler req file = Thrown e).
Proof.
  unfold handler. split_and!.
  - intros db ->. destruct (String.eqb (method req) "GET"); [|by eexists].
    destruct (slug req) as [|s|l]; try by eexists.
    destruct (truthy s); [|by eexists].
    unfold bind, getImageBySlug, initDB, ret. unfold bind. simpl.
    destruct (List.find (λ img, String.eqb (Db.slug img) s) (images db));
      by eexists.
  - intros Hne. by destruct (String.eqb_spec (method req) "GET").
  - intros -> ->. simpl. destruct (slug req) as [|s|l]; try done.
    by destruct (truthy s).
  - intros -> [->|[l ->]]; simpl.
    + destruct (slug req) as [|s|l]; try by eexists.
      destruct (truthy s); by eexists.
    + destruct (slug req) as [|s|l']; try by eexists.
      destruct (truthy s); by eexists.
Qed.

End read_api_edges.
